(** * dynamic_bitset: a shallow embedding of Source/dynamic_bitset.hpp

    The class template [dynamic_bitset<N>] wraps one [std::vector<bool>]
    member, [bits_].  The embedding keeps that shape:

    - the template argument [N] is a parameter of the record type, so the
      two operands of a binary operator share it, as the C++ types do;
    - [bits_] is a [list bool], index 0 first;
    - [std::size_t] values that the code computes with (shift amounts,
      loop counters of the shifts, the accumulator of [to_ulong]) are [Z]
      with the wrap-around modulo [2^64] written out; [int] values are [Z]
      with the conversion from [std::size_t] written out ([to_int]);
    - container sizes are [nat] (the length of the list);
    - code that can fail returns a [result]: [std::vector::at] throws
      [std::out_of_range], the unchecked [operator[]] of the vector outside
      [0, size) is undefined behaviour, so is the [++i] of an [int] counter
      that stands at [INT_MAX], and the one loop whose exit condition can stay
      true for ever runs on fuel. *)

From Stdlib Require Import ZArith Ascii Lia.
From Equations Require Import Equations.
From stdpp Require Import base list numbers strings.

Local Open Scope Z_scope.
Local Open Scope list_scope.

(** ** Machine integers *)

Definition SIZE_BITS : Z := 64.
Definition SIZE_MOD : Z := 2 ^ SIZE_BITS.
Definition INT_MAX : Z := 2 ^ 31 - 1.

(** Arithmetic on [std::size_t] is modulo [2^64]. *)
Definition wrap (z : Z) : Z := z mod SIZE_MOD.

(** Conversion of a [std::size_t] value to [int]: the low 32 bits, read as a
    two's complement number. *)
Definition to_int (z : Z) : Z := (z + 2 ^ 31) mod 2 ^ 32 - 2 ^ 31.

(** ** Results of fallible code *)

Inductive result (A : Type) : Type :=
| Ok (a : A)
| OutOfRange (index : Z) (size : nat)   (* std::out_of_range from vector::at *)
| Undefined (index : Z)                  (* unchecked access outside the storage *)
| Timeout                                (* the fuel of a loop ran out *)
| IntOverflow.                           (* ++i on an int that holds INT_MAX *)
Arguments Ok {A} a.
Arguments OutOfRange {A} index size.
Arguments Undefined {A} index.
Arguments Timeout {A}.
Arguments IntOverflow {A}.

#[global] Instance result_bind : MBind result := fun A B k r =>
  match r with
  | Ok a => k a
  | OutOfRange i n => OutOfRange i n
  | Undefined i => Undefined i
  | Timeout => Timeout
  | IntOverflow => IntOverflow
  end.

Definition is_Ok {A : Type} (r : result A) : bool :=
  match r with Ok _ => true | _ => false end.

(** ** The storage: std::vector<bool> *)

Definition in_bounds (v : list bool) (i : Z) : bool :=
  (0 <=? i) && (i <? Z.of_nat (length v)).

(** [v.at(i)]: bounds-checked read. *)
Definition vec_at (v : list bool) (i : Z) : result bool :=
  if in_bounds v i then Ok (nth (Z.to_nat i) v false)
  else OutOfRange i (length v).

(** [v[i]] read: no check.  [stray] is what a read outside [0, size) does. *)
Definition vec_read_with (stray : Z -> result bool) (v : list bool) (i : Z)
    : result bool :=
  if in_bounds v i then Ok (nth (Z.to_nat i) v false)
  else stray i.

(** By the language such a read is undefined behaviour. *)
Definition vec_read (v : list bool) (i : Z) : result bool :=
  vec_read_with (fun i => Undefined i) v i.

(** [v[i] = b]: no check. *)
Definition vec_write (v : list bool) (i : Z) (b : bool) : result (list bool) :=
  if in_bounds v i then Ok (<[Z.to_nat i := b]> v)
  else Undefined i.

(** [v.assign(n, b)]. *)
Definition vec_assign (n : nat) (b : bool) : list bool := replicate n b.

(** [for (i = lo; i < lo + n; ++i) body], the state threaded through. *)
Fixpoint for_up {St : Type} (n : nat) (i : Z)
    (body : Z -> St -> result St) (s : St) : result St :=
  match n with
  | O => Ok s
  | S n' => s' ← body i s; for_up n' (i + 1) body s'
  end.

(** [for (i = lo; i < hi; ++i) body]. *)
Definition for_range {St : Type} (lo hi : Z)
    (body : Z -> St -> result St) (s : St) : result St :=
  for_up (Z.to_nat (hi - lo)) lo body s.

(** [for (int i = lo; i < size; ++i) body] with [size] a [std::size_t], [n]
    passes being left: the comparison converts [i] to [std::size_t], and the
    [++i] after a pass is a signed overflow when [i] holds [INT_MAX]. *)
Fixpoint for_int_up {St : Type} (n : nat) (i : Z)
    (body : Z -> St -> result St) (s : St) : result St :=
  match n with
  | O => Ok s
  | S n' =>
      s' ← body i s;
      if INT_MAX <=? i then IntOverflow else for_int_up n' (i + 1) body s'
  end.

(** [for (int i = 0; i < size; ++i) body]. *)
Definition for_int {St : Type} (size : nat)
    (body : Z -> St -> result St) (s : St) : result St :=
  for_int_up size 0 body s.

(** ** The class *)

Record dynamic_bitset (N : nat) : Type := mk_bitset { bits_ : list bool }.
Arguments mk_bitset {N} bits_.
Arguments bits_ {N} d.

(** [size()]. *)
Definition size {N : nat} (d : dynamic_bitset N) : nat := length (bits_ d).

(** [get()]. *)
Definition get {N : nat} (d : dynamic_bitset N) : list bool := bits_ d.

(** *** Private helpers *)

(** [add_padding]: [for (int i = 0; i < number_of_padding; ++i)
    base.insert(base.begin(), 0)]. *)
Fixpoint add_padding_loop (n : nat) (base : list bool) : list bool :=
  match n with
  | O => base
  | S n' => add_padding_loop n' (false :: base)
  end.

Definition add_padding (base : list bool) (number_of_padding : Z) : list bool :=
  add_padding_loop (Z.to_nat number_of_padding) base.

(** [int number_of_padding = bits_.size() - source.size()]: the subtraction
    is done on [std::size_t], the result converted to [int]. *)
Definition padding_count (bits_size source_size : nat) : Z :=
  to_int (wrap (Z.of_nat bits_size - Z.of_nat source_size)).

(** [int_to_binary]: the loop
    [while (value > 0) { temp.insert(temp.begin(), bool(value % 2)); value /= 2; }]
    returns the [value] it stops at together with [temp]; after it,
    [if (temp.empty()) temp.emplace_back(value)] stores [value != 0]. *)
Equations? int_to_binary_loop (value : Z) (temp : list bool) : Z * list bool
  by wf (Z.to_nat value) lt :=
  int_to_binary_loop value temp with Z_gt_dec value 0 => {
    | left _ => int_to_binary_loop (value / 2) (negb (value mod 2 =? 0) :: temp);
    | right _ => (value, temp) }.
Proof.
  assert (value / 2 < value) by (apply Z.div_lt; lia).
  assert (0 <= value / 2) by (apply Z.div_pos; lia).
  lia.
Qed.

Definition int_to_binary (value : Z) : list bool :=
  let '(value', temp) := int_to_binary_loop value [] in
  match temp with
  | [] => temp ++ [negb (value' =? 0)]
  | _ => temp
  end.

(** [string_to_bitset]: a member function; it reads the size [bits_] has when
    it is called.  The loop is [binaries.emplace_back(c == '1')]. *)
Fixpoint string_to_bitset_loop (s : String.string) (binaries : list bool)
    : list bool :=
  match s with
  | String.EmptyString => binaries
  | String.String c s' =>
      string_to_bitset_loop s' (binaries ++ [Ascii.eqb c "1"%char])
  end.

Definition string_to_bitset (bits_size : nat) (binary_string : String.string)
    : list bool :=
  let number_of_padding := padding_count bits_size (String.length binary_string) in
  let binaries := string_to_bitset_loop binary_string [] in
  add_padding binaries number_of_padding.

(** *** Constructors.  Each starts from [bits_(N)], a vector of [N] zeros. *)

Definition dynamic_bitset_default (N : nat) : dynamic_bitset N :=
  mk_bitset (vec_assign N false).

Definition dynamic_bitset_of_int (N : nat) (value : Z) : dynamic_bitset N :=
  let bits0 := vec_assign N false in
  let binary := int_to_binary value in
  let number_of_padding := padding_count (length bits0) (length binary) in
  mk_bitset (add_padding binary number_of_padding).

Definition dynamic_bitset_of_vector (N : nat) (binaries : list bool)
    : dynamic_bitset N :=
  let bits0 := vec_assign N false in
  let number_of_padding := padding_count (length bits0) (length binaries) in
  mk_bitset (add_padding binaries number_of_padding).

(** The initializer-list constructor assigns first and pads [bits_] after. *)
Definition dynamic_bitset_of_initializer_list (N : nat) (binaries : list bool)
    : dynamic_bitset N :=
  let bits0 := vec_assign N false in
  let number_of_padding := padding_count (length bits0) (length binaries) in
  let bits1 := binaries in
  mk_bitset (add_padding bits1 number_of_padding).

Definition dynamic_bitset_of_string (N : nat) (binary_string : String.string)
    : dynamic_bitset N :=
  let bits0 := vec_assign N false in
  mk_bitset (string_to_bitset (length bits0) binary_string).

(** A [const char *] is read up to its first NUL. *)
Fixpoint strlen (binary : String.string) : nat :=
  match binary with
  | String.EmptyString => O
  | String.String c binary' =>
      if Ascii.eqb c Ascii.zero then O else S (strlen binary')
  end.

Fixpoint cstring_loop (binary : String.string) (binaries : list bool)
    : list bool :=
  match binary with
  | String.EmptyString => binaries
  | String.String c binary' =>
      if Ascii.eqb c Ascii.zero then binaries
      else cstring_loop binary' (binaries ++ [Ascii.eqb c "1"%char])
  end.

Definition dynamic_bitset_of_cstring (N : nat) (binary : String.string)
    : dynamic_bitset N :=
  let bits0 := vec_assign N false in
  let number_of_padding := padding_count (length bits0) (strlen binary) in
  let binaries := cstring_loop binary [] in
  mk_bitset (add_padding binaries number_of_padding).

(** The move constructor: the new object takes the storage, and the source is
    left with an empty vector.  The pair is (new object, source afterwards). *)
Definition dynamic_bitset_move {N : nat} (other : dynamic_bitset N)
    : dynamic_bitset N * dynamic_bitset N :=
  (mk_bitset (bits_ other), mk_bitset []).

(** [operator=(const std::vector<bool> &)]. *)
Definition assign_vector {N : nat} (this : dynamic_bitset N)
    (binaries : list bool) : dynamic_bitset N :=
  let number_of_padding := padding_count (length (bits_ this)) (length binaries) in
  let bits1 := binaries in
  mk_bitset (add_padding bits1 number_of_padding).

(** *** Element access *)

(** [bool operator[](std::size_t index) const]. *)
Definition operator_index_const {N : nat} (this : dynamic_bitset N) (index : Z)
    : result bool :=
  vec_at (bits_ this) index.

(** [std::vector<bool>::reference operator[](std::size_t index)]: the proxy
    names a position of [bits_]. *)
Definition reference : Type := nat.

Definition operator_index {N : nat} (this : dynamic_bitset N) (index : Z)
    : result reference :=
  if in_bounds (bits_ this) index then Ok (Z.to_nat index)
  else OutOfRange index (length (bits_ this)).

Definition reference_read {N : nat} (this : dynamic_bitset N) (r : reference)
    : bool :=
  nth r (bits_ this) false.

Definition reference_assign {N : nat} (this : dynamic_bitset N) (r : reference)
    (value : bool) : dynamic_bitset N :=
  mk_bitset (<[r := value]> (bits_ this)).

(** The statement [x[index] = value]: what the caller sees, and the object
    afterwards. *)
Definition index_assign {N : nat} (this : dynamic_bitset N) (index : Z)
    (value : bool) : result unit * dynamic_bitset N :=
  match operator_index this index with
  | Ok r => (Ok tt, reference_assign this r value)
  | OutOfRange i n => (OutOfRange i n, this)
  | Undefined i => (Undefined i, this)
  | Timeout => (Timeout, this)
  | IntOverflow => (IntOverflow, this)
  end.

(** *** Quantifiers: std::all_of, std::any_of, std::none_of *)

Fixpoint all_of (p : bool -> bool) (l : list bool) : bool :=
  match l with
  | [] => true
  | b :: l' => if p b then all_of p l' else false
  end.

Fixpoint any_of (p : bool -> bool) (l : list bool) : bool :=
  match l with
  | [] => false
  | b :: l' => if p b then true else any_of p l'
  end.

Fixpoint none_of (p : bool -> bool) (l : list bool) : bool :=
  match l with
  | [] => true
  | b :: l' => if p b then false else none_of p l'
  end.

Definition all {N : nat} (this : dynamic_bitset N) : bool :=
  all_of (fun b => b) (bits_ this).

Definition any {N : nat} (this : dynamic_bitset N) : bool :=
  any_of (fun b => b) (bits_ this).

Definition none {N : nat} (this : dynamic_bitset N) : bool :=
  none_of (fun b => b) (bits_ this).

(** *** Whole-vector updates *)

Definition reverse {N : nat} (this : dynamic_bitset N) : dynamic_bitset N :=
  mk_bitset (rev (bits_ this)).

Definition set {N : nat} (this : dynamic_bitset N) (value : bool)
    : dynamic_bitset N :=
  mk_bitset (replicate (length (bits_ this)) value).

Definition reset {N : nat} (this : dynamic_bitset N) : dynamic_bitset N :=
  set this false.

(** *** Conversions *)

(** [to_string]: [str.push_back(bit == true ? '1' : '0')] for each bit. *)
Fixpoint to_string_loop (bits : list bool) (str : String.string)
    : String.string :=
  match bits with
  | [] => str
  | bit :: bits' =>
      to_string_loop bits'
        (String.append str
           (String.String (if bit then "1"%char else "0"%char) String.EmptyString))
  end.

Definition to_string {N : nat} (this : dynamic_bitset N) : String.string :=
  to_string_loop (bits_ this) String.EmptyString.

(** [to_ulong]: the loop runs over [rbegin() .. rend()], that is over the
    reversed sequence; [value] and [power] are [std::size_t]. *)
Fixpoint to_ulong_loop (rbits : list bool) (value power : Z) : Z :=
  match rbits with
  | [] => value
  | bit :: rbits' =>
      to_ulong_loop rbits'
        (if bit then wrap (value + power) else value)
        (wrap (power * 2))
  end.

Definition to_ulong {N : nat} (this : dynamic_bitset N) : Z :=
  to_ulong_loop (rev (bits_ this)) 0 1.

(** *** Bitwise operators

    The three non-assigning operators have one body, up to the boolean
    operator applied to [other[i]] and [bits_[i]]; so have the three compound
    assignments, applied to [bits_[i]] and [other.bits_[i]]. *)

Definition bitwise_new {N : nat} (op : bool -> bool -> bool)
    (this other : dynamic_bitset N) : result (dynamic_bitset N) :=
  let size_ := Nat.min (length (bits_ this)) (size other) in
  set_ ← for_int size_
           (fun i set_ =>
              o ← operator_index_const other i;
              b ← vec_read (bits_ this) i;
              Ok (set_ ++ [op o b]))
           [];
  Ok (dynamic_bitset_of_vector N set_).

Definition bitwise_assign {N : nat} (op : bool -> bool -> bool)
    (this other : dynamic_bitset N) : result (dynamic_bitset N) :=
  let size_ := Nat.min (length (bits_ this)) (size other) in
  bits ← for_int size_
           (fun i bits =>
              b ← vec_read bits i;
              o ← vec_read (bits_ other) i;
              vec_write bits i (op b o))
           (bits_ this);
  Ok (mk_bitset bits).

(** [operator&]: [other[i] && bits_[i]]. *)
Definition operator_and {N : nat} (this other : dynamic_bitset N) :=
  bitwise_new andb this other.

(** [operator|]: [other[i] || bits_[i]]. *)
Definition operator_or {N : nat} (this other : dynamic_bitset N) :=
  bitwise_new orb this other.

(** [operator^]: [other[i] ^ bits_[i]]. *)
Definition operator_xor {N : nat} (this other : dynamic_bitset N) :=
  bitwise_new xorb this other.

(** [operator&=]: [bits_[i] = bits_[i] && other.bits_[i]]. *)
Definition operator_and_assign {N : nat} (this other : dynamic_bitset N) :=
  bitwise_assign andb this other.

(** [operator|=]. *)
Definition operator_or_assign {N : nat} (this other : dynamic_bitset N) :=
  bitwise_assign orb this other.

(** [operator^=]. *)
Definition operator_xor_assign {N : nat} (this other : dynamic_bitset N) :=
  bitwise_assign xorb this other.

(** *** Shifts.  [shift_amount] is a [std::size_t]. *)

(** The copy loop of [operator<<=]:
    [for (i = 0; i < bits_.size(); ++i) bits_[i] = bits_[i + shift_amount]]. *)
Definition shl_copy (stray : Z -> result bool) (shift_amount : Z) (i : Z)
    (bits : list bool) : result (list bool) :=
  b ← vec_read_with stray bits (wrap (i + shift_amount));
  vec_write bits i b.

Definition operator_shl_assign_with {N : nat} (stray : Z -> result bool)
    (this : dynamic_bitset N) (shift_amount : Z) : result (dynamic_bitset N) :=
  let n := Z.of_nat (length (bits_ this)) in
  if n <=? shift_amount then
    Ok (mk_bitset (vec_assign (length (bits_ this)) false))
  else
    bits1 ← for_range 0 n (shl_copy stray shift_amount) (bits_ this);
    bits2 ← for_range (wrap (n - shift_amount)) n
              (fun i bits => vec_write bits i false) bits1;
    Ok (mk_bitset bits2).

(** [operator<<=], a read outside the storage being undefined. *)
Definition operator_shl_assign {N : nat} (this : dynamic_bitset N)
    (shift_amount : Z) : result (dynamic_bitset N) :=
  operator_shl_assign_with (fun i => Undefined i) this shift_amount.

(** [operator<<=] on an implementation where a read outside the storage
    yields some bit, [junk i], and goes on. *)
Definition operator_shl_assign_lenient {N : nat} (junk : Z -> bool)
    (this : dynamic_bitset N) (shift_amount : Z) : result (dynamic_bitset N) :=
  operator_shl_assign_with (fun i => Ok (junk i)) this shift_amount.

(** The copy loop of [operator>>=]:
    [for (i = bits_.size() - 1; i >= shift_amount; --i)
       bits_[i] = bits_[i - shift_amount]].
    The counter is unsigned, so [--i] at 0 wraps to [2^64 - 1]. *)
Fixpoint shr_copy_loop (fuel : nat) (shift_amount i : Z) (bits : list bool)
    : result (list bool) :=
  match fuel with
  | O => Timeout
  | S fuel' =>
      if shift_amount <=? i then
        b ← vec_read bits (wrap (i - shift_amount));
        bits' ← vec_write bits i b;
        shr_copy_loop fuel' shift_amount (wrap (i - 1)) bits'
      else Ok bits
  end.

Definition operator_shr_assign {N : nat} (fuel : nat) (this : dynamic_bitset N)
    (shift_amount : Z) : result (dynamic_bitset N) :=
  let n := Z.of_nat (length (bits_ this)) in
  if n <=? shift_amount then
    Ok (mk_bitset (vec_assign (length (bits_ this)) false))
  else
    bits1 ← shr_copy_loop fuel shift_amount (wrap (n - 1)) (bits_ this);
    bits2 ← for_range 0 shift_amount
              (fun i bits => vec_write bits i false) bits1;
    Ok (mk_bitset bits2).

(** *** Compound assignment of a bitset with itself

    In [a &= a] the parameter [other] is a reference to [*this]: the size of
    the loop is [std::min(bits_.size(), other.size())] of one and the same
    vector, and both reads of a pass see the bits as the passes before have
    left them. *)

Definition bitwise_assign_self {N : nat} (op : bool -> bool -> bool)
    (this : dynamic_bitset N) : result (dynamic_bitset N) :=
  let size_ := Nat.min (length (bits_ this)) (size this) in
  bits ← for_int size_
           (fun i bits =>
              b ← vec_read bits i;
              o ← vec_read bits i;
              vec_write bits i (op b o))
           (bits_ this);
  Ok (mk_bitset bits).

(** *** Input

    [operator>>(std::istream &, dynamic_bitset &)] reads one token with
    [input >> str] and stores [string_to_bitset(str)], computed from the size
    [bits_] has at that moment.  [str] below is the token the stream gave. *)

Definition operator_extract {N : nat} (this : dynamic_bitset N) (str : string)
    : dynamic_bitset N :=
  mk_bitset (string_to_bitset (length (bits_ this)) str).

(** ** What the specification says, in its own words *)

(** "compute pad; if pad > 0, prepend pad false bits to the front of the
    source sequence; if pad <= 0, use the source as-is". *)
Definition padding_rule (pad : Z) (source : list bool) : list bool :=
  if 0 <? pad then replicate (Z.to_nat pad) false ++ source else source.

(** "interpret the sequence as a big-endian binary number": the bit at
    position [i] of [n] weighs [2^(n-1-i)]. *)
Fixpoint binary_value (bits : list bool) : Z :=
  match bits with
  | [] => 0
  | bit :: bits' => Z.b2z bit * 2 ^ Z.of_nat (length bits') + binary_value bits'
  end.

(** The characters of a bit string, one per bit. *)
Definition bit_char (bit : bool) : ascii := if bit then "1"%char else "0"%char.

Definition char_bit (c : ascii) : bool := Ascii.eqb c "1"%char.

Fixpoint string_of_bits (bits : list bool) : string :=
  match bits with
  | [] => EmptyString
  | bit :: bits' => String (bit_char bit) (string_of_bits bits')
  end.

Fixpoint bits_of_string (s : string) : list bool :=
  match s with
  | EmptyString => []
  | String c s' => char_bit c :: bits_of_string s'
  end.

(** A string of '0' and '1' only. *)
Fixpoint binary_string (s : string) : bool :=
  match s with
  | EmptyString => true
  | String c s' => (Ascii.eqb c "0"%char || Ascii.eqb c "1"%char) && binary_string s'
  end.

(** The index is a position of the vector. *)
Definition in_range {N : nat} (d : dynamic_bitset N) (index : Z) : Prop :=
  0 <= index < Z.of_nat (size d).

(** ** Auxiliary definitions of the statements *)

(** The characters a [const char *] holds before its terminator. *)
Fixpoint c_chars (binary : string) : string :=
  match binary with
  | EmptyString => EmptyString
  | String c binary' =>
      if Ascii.eqb c Ascii.zero then EmptyString else String c (c_chars binary')
  end.

(** The value of the reversed sequence, least significant bit first. *)
Fixpoint le_value (rbits : list bool) : Z :=
  match rbits with
  | [] => 0
  | bit :: rbits' => Z.b2z bit + 2 * le_value rbits'
  end.

(** The values an [int] holds. *)
Definition int_range (z : Z) : Prop := - 2 ^ 31 <= z <= INT_MAX.

(** What a compound assignment [r] of [a] with [b] by [op] must satisfy at a
    position [i]: it succeeds, [a] keeps its length and its bit at [i], and
    the positions below the shorter length hold the combined bits. *)
Definition assigned_in_place {N : nat} (op : bool -> bool -> bool)
    (a b : dynamic_bitset N) (i : nat) (r : result (dynamic_bitset N)) : Prop :=
  exists a' : dynamic_bitset N,
    r = Ok a'
    /\ size a' = size a
    /\ bits_ a' !! i = bits_ a !! i
    /\ forall j : nat, (j < size a `min` size b)%nat ->
         bits_ a' !! j = Some (op (nth j (bits_ a) false) (nth j (bits_ b) false)).

(** ** Particular bitsets *)

(** The moved-from bitset of class [dynamic_bitset<5>]: the move constructor
    has emptied it. *)
Definition moved_from_5 : dynamic_bitset 5 :=
  snd (dynamic_bitset_move (dynamic_bitset_of_string 5 "10001")).

(** A target length beyond [unsigned int]: [2^32 + 2]. *)
Definition wide_N : nat := Z.to_nat (2 ^ 32 + 2).

(** A bitset of [2^31] bits, all false: one more than [INT_MAX]. *)
Definition two_to_31_zeros : dynamic_bitset 0 :=
  mk_bitset (replicate (Z.to_nat (2 ^ 31)) false).

(** A bitset of 65 bits, the first one set: its value is [2^64]. *)
Definition one_and_64_zeros : dynamic_bitset 0 :=
  dynamic_bitset_of_vector 0 (true :: replicate 64 false).

(** * Properties *)

(** ** Machine integers *)

Lemma SIZE_MOD_eq : SIZE_MOD = 18446744073709551616.
Proof. reflexivity. Qed.

Lemma wrap_small (z : Z) : 0 <= z < SIZE_MOD -> wrap z = z.
Proof. intros H. unfold wrap. apply Z.mod_small. exact H. Qed.

Lemma wrap_range (z : Z) : 0 <= wrap z < SIZE_MOD.
Proof. unfold wrap. apply Z.mod_pos_bound. reflexivity. Qed.

Lemma to_int_wrap (z : Z) : to_int (wrap z) = to_int z.
Proof.
  unfold to_int, wrap. f_equal.
  rewrite <- (Zplus_mod_idemp_l (z mod _)).
  rewrite Z.mod_mod_divide by (exists (2 ^ 32); reflexivity).
  rewrite Zplus_mod_idemp_l. reflexivity.
Qed.

Lemma to_int_small (z : Z) : - 2 ^ 31 <= z < 2 ^ 31 -> to_int z = z.
Proof. intros H. unfold to_int. rewrite Z.mod_small; lia. Qed.

Lemma padding_count_exact (n m : nat) :
  - 2 ^ 31 <= Z.of_nat n - Z.of_nat m < 2 ^ 31 ->
  padding_count n m = Z.of_nat n - Z.of_nat m.
Proof.
  intros H. unfold padding_count. rewrite to_int_wrap. apply to_int_small, H.
Qed.

Lemma padding_count_diag (n : nat) : padding_count n n = 0.
Proof. rewrite padding_count_exact; lia. Qed.

(** ** Padding *)

Lemma add_padding_loop_spec (n : nat) (base : list bool) :
  add_padding_loop n base = replicate n false ++ base.
Proof.
  revert base. induction n as [|n IH]; intros base; simpl; [reflexivity|].
  rewrite IH, (cons_middle false), app_assoc, <- replicate_cons_app.
  reflexivity.
Qed.

Lemma add_padding_rule (base : list bool) (pad : Z) :
  add_padding base pad = padding_rule pad base.
Proof.
  unfold add_padding, padding_rule. rewrite add_padding_loop_spec.
  destruct (Z.ltb_spec 0 pad) as [Hpos|Hneg]; [reflexivity|].
  replace (Z.to_nat pad) with O by lia. reflexivity.
Qed.

Lemma length_vec_assign (n : nat) (b : bool) : length (vec_assign n b) = n.
Proof. apply length_replicate. Qed.

(** ** Strings *)

Lemma append_cons (a : ascii) (s t : string) :
  String.append (String a s) t = String a (String.append s t).
Proof. reflexivity. Qed.

Lemma append_snoc (s t : string) (c : ascii) :
  String.append (String.append s (String c EmptyString)) t
  = String.append s (String c t).
Proof.
  induction s as [|a s IH]; [reflexivity|].
  rewrite !append_cons, IH. reflexivity.
Qed.

Lemma append_empty_r (s : string) : String.append s EmptyString = s.
Proof.
  induction s as [|a s IH]; [reflexivity|].
  rewrite append_cons, IH. reflexivity.
Qed.

Lemma to_string_loop_spec (bits : list bool) (str : string) :
  to_string_loop bits str = String.append str (string_of_bits bits).
Proof.
  revert str. induction bits as [|bit bits IH]; intros str; simpl.
  - symmetry. apply append_empty_r.
  - rewrite IH. apply append_snoc.
Qed.

Lemma to_string_spec {N : nat} (d : dynamic_bitset N) :
  to_string d = string_of_bits (bits_ d).
Proof. unfold to_string. rewrite to_string_loop_spec. reflexivity. Qed.

Lemma length_string_of_bits (bits : list bool) :
  String.length (string_of_bits bits) = length bits.
Proof. induction bits as [|bit bits IH]; simpl; [reflexivity|]. rewrite IH. reflexivity. Qed.

Lemma length_bits_of_string (s : string) :
  length (bits_of_string s) = String.length s.
Proof. induction s as [|c s IH]; simpl; [reflexivity|]. rewrite IH. reflexivity. Qed.

Lemma char_bit_bit_char (bit : bool) : char_bit (bit_char bit) = bit.
Proof. destruct bit; reflexivity. Qed.

Lemma bits_of_string_of_bits (bits : list bool) :
  bits_of_string (string_of_bits bits) = bits.
Proof.
  induction bits as [|bit bits IH]; simpl; [reflexivity|].
  rewrite char_bit_bit_char, IH. reflexivity.
Qed.

Lemma string_of_bits_of_string (s : string) :
  binary_string s = true -> string_of_bits (bits_of_string s) = s.
Proof.
  induction s as [|c s IH]; simpl; [reflexivity|].
  intros [Hc Hs]%andb_prop. rewrite (IH Hs). f_equal.
  apply orb_prop in Hc as [Hc|Hc]; apply Ascii.eqb_eq in Hc; subst c; reflexivity.
Qed.

Lemma string_to_bitset_loop_spec (s : string) (binaries : list bool) :
  string_to_bitset_loop s binaries = binaries ++ bits_of_string s.
Proof.
  revert binaries. induction s as [|c s IH]; intros binaries; simpl.
  - symmetry. apply app_nil_r.
  - rewrite IH, <- app_assoc. reflexivity.
Qed.

Lemma strlen_c_chars (binary : string) :
  strlen binary = String.length (c_chars binary).
Proof.
  induction binary as [|c s IH]; simpl; [reflexivity|].
  destruct (Ascii.eqb c Ascii.zero); simpl; [reflexivity|]. rewrite IH. reflexivity.
Qed.

Lemma cstring_loop_spec (binary : string) (binaries : list bool) :
  cstring_loop binary binaries = binaries ++ bits_of_string (c_chars binary).
Proof.
  revert binaries. induction binary as [|c s IH]; intros binaries; simpl.
  - symmetry. apply app_nil_r.
  - destruct (Ascii.eqb c Ascii.zero); simpl.
    + symmetry. apply app_nil_r.
    + rewrite IH, <- app_assoc. reflexivity.
Qed.

(** ** Constructors *)

Lemma bitset_eq {N : nat} (a b : dynamic_bitset N) : bits_ a = bits_ b -> a = b.
Proof. destruct a, b; simpl; intros ->; reflexivity. Qed.

Lemma bits_of_vector (N : nat) (binaries : list bool) :
  bits_ (dynamic_bitset_of_vector N binaries)
  = padding_rule (padding_count N (length binaries)) binaries.
Proof.
  unfold dynamic_bitset_of_vector; simpl.
  rewrite length_vec_assign. apply add_padding_rule.
Qed.

Lemma bits_of_initializer_list (N : nat) (binaries : list bool) :
  bits_ (dynamic_bitset_of_initializer_list N binaries)
  = padding_rule (padding_count N (length binaries)) binaries.
Proof.
  unfold dynamic_bitset_of_initializer_list; simpl.
  rewrite length_vec_assign. apply add_padding_rule.
Qed.

Lemma bits_of_string_ctor (N : nat) (s : string) :
  bits_ (dynamic_bitset_of_string N s)
  = padding_rule (padding_count N (String.length s)) (bits_of_string s).
Proof.
  unfold dynamic_bitset_of_string, string_to_bitset; simpl.
  rewrite length_vec_assign, string_to_bitset_loop_spec. apply add_padding_rule.
Qed.

Lemma bits_of_cstring (N : nat) (binary : string) :
  bits_ (dynamic_bitset_of_cstring N binary)
  = padding_rule (padding_count N (String.length (c_chars binary)))
      (bits_of_string (c_chars binary)).
Proof.
  unfold dynamic_bitset_of_cstring; simpl.
  rewrite length_vec_assign, cstring_loop_spec, strlen_c_chars.
  apply add_padding_rule.
Qed.

Lemma bits_of_int (N : nat) (value : Z) :
  bits_ (dynamic_bitset_of_int N value)
  = padding_rule (padding_count N (length (int_to_binary value)))
      (int_to_binary value).
Proof.
  unfold dynamic_bitset_of_int; simpl.
  rewrite length_vec_assign. apply add_padding_rule.
Qed.

Lemma length_padding_rule (pad : Z) (source : list bool) :
  length (padding_rule pad source) = (Z.to_nat pad + length source)%nat.
Proof.
  unfold padding_rule. destruct (Z.ltb_spec 0 pad).
  - rewrite length_app, length_replicate. reflexivity.
  - replace (Z.to_nat pad) with O by lia. reflexivity.
Qed.

Lemma padding_rule_nonpos (pad : Z) (source : list bool) :
  pad <= 0 -> padding_rule pad source = source.
Proof. intros H. unfold padding_rule. destruct (Z.ltb_spec 0 pad); [lia|reflexivity]. Qed.

Lemma bits_of_vector_exact (N : nat) (v : list bool) :
  length v = N -> bits_ (dynamic_bitset_of_vector N v) = v.
Proof.
  intros <-. rewrite bits_of_vector, padding_count_diag.
  apply padding_rule_nonpos. lia.
Qed.

(** The loop of [int_to_binary] puts the binary digits of a non-negative
    [value], most significant first, in front of [temp]. *)
Lemma int_to_binary_loop_value (value : Z) (temp : list bool) :
  0 <= value ->
  binary_value (snd (int_to_binary_loop value temp))
  = value * 2 ^ Z.of_nat (length temp) + binary_value temp.
Proof.
  funelim (int_to_binary_loop value temp); intros Hpos.
  - match goal with
    | IH : 0 <= _ -> binary_value _ = _ |- _ =>
        rewrite IH by (apply Z.div_pos; lia)
    end.
    cbn [binary_value length]. rewrite Nat2Z.inj_succ, Z.pow_succ_r by lia.
    pose proof (Z.div_mod value 2 ltac:(lia)) as Hdm.
    pose proof (Z.mod_pos_bound value 2 ltac:(lia)) as Hb.
    destruct (Z.eqb_spec (value mod 2) 0) as [H0|H0]; simpl Z.b2z; nia.
  - simpl. nia.
Qed.

Lemma int_to_binary_value (value : Z) :
  0 <= value -> binary_value (int_to_binary value) = value.
Proof.
  intros Hpos. unfold int_to_binary.
  pose proof (int_to_binary_loop_value value [] Hpos) as Hloop.
  destruct (int_to_binary_loop value []) as [value' temp] eqn:Hrun.
  simpl in Hloop. destruct temp as [|b temp]; [|lia].
  simpl in Hloop. assert (value = 0) as -> by lia.
  rewrite int_to_binary_loop_equation_1 in Hrun. simpl in Hrun.
  injection Hrun as <-. reflexivity.
Qed.

(** ** Construction and the padding rule *)

Lemma padding_count_int_range (N n : nat) :
  int_range (Z.of_nat N - Z.of_nat n) ->
  padding_count N n = Z.of_nat N - Z.of_nat n.
Proof.
  unfold int_range, INT_MAX. intros H. apply padding_count_exact. lia.
Qed.

(** C9, amended.  Construction into a target length [N] normalizes the source
    by the padding rule applied to the [int] the constructor computes, the
    [std::size_t] difference of [N] and the source length converted to [int].
    Whenever [N - source_length] is a value of [int] (so whenever both sizes
    are at most [INT_MAX]) that is [pad = N - source_length]: when [pad > 0],
    [pad] false bits are put in front of the source, and when [pad <= 0] the
    source is used as it is.  This holds for the constructors from a vector
    of bools, an initializer list, a string, a C string and an integer.  In
    particular a bitset of length 6 built from the integer 10 is
    [0,0,1,0,1,0]. *)
Theorem construction_padding_rule
    (N : nat) (source : list bool) (s : string) (value : Z) :
  (int_range (Z.of_nat N - Z.of_nat (length source)) ->
     bits_ (dynamic_bitset_of_vector N source)
       = padding_rule (Z.of_nat N - Z.of_nat (length source)) source
     /\ bits_ (dynamic_bitset_of_initializer_list N source)
       = padding_rule (Z.of_nat N - Z.of_nat (length source)) source)
  /\ (int_range (Z.of_nat N - Z.of_nat (String.length s)) ->
     bits_ (dynamic_bitset_of_string N s)
     = padding_rule (Z.of_nat N - Z.of_nat (String.length s)) (bits_of_string s))
  /\ (int_range (Z.of_nat N - Z.of_nat (String.length (c_chars s))) ->
     bits_ (dynamic_bitset_of_cstring N s)
     = padding_rule (Z.of_nat N - Z.of_nat (String.length (c_chars s)))
         (bits_of_string (c_chars s)))
  /\ (int_range (Z.of_nat N - Z.of_nat (length (int_to_binary value))) ->
     bits_ (dynamic_bitset_of_int N value)
     = padding_rule (Z.of_nat N - Z.of_nat (length (int_to_binary value)))
         (int_to_binary value))
  /\ (Z.of_nat N <= INT_MAX -> Z.of_nat (length source) <= INT_MAX ->
     int_range (Z.of_nat N - Z.of_nat (length source)))
  /\ (bits_ (dynamic_bitset_of_vector N source)
       = padding_rule (padding_count N (length source)) source
     /\ bits_ (dynamic_bitset_of_initializer_list N source)
       = padding_rule (padding_count N (length source)) source
     /\ bits_ (dynamic_bitset_of_string N s)
       = padding_rule (padding_count N (String.length s)) (bits_of_string s)
     /\ bits_ (dynamic_bitset_of_cstring N s)
       = padding_rule (padding_count N (String.length (c_chars s)))
           (bits_of_string (c_chars s))
     /\ bits_ (dynamic_bitset_of_int N value)
       = padding_rule (padding_count N (length (int_to_binary value)))
           (int_to_binary value))
  /\ bits_ (dynamic_bitset_of_int 6 10)
     = [false; false; true; false; true; false].
Proof.
  split; [|split; [|split; [|split; [|split; [|split]]]]].
  - intros H. rewrite bits_of_vector, bits_of_initializer_list.
    rewrite (padding_count_int_range _ _ H). split; reflexivity.
  - intros H. rewrite bits_of_string_ctor, (padding_count_int_range _ _ H).
    reflexivity.
  - intros H. rewrite bits_of_cstring, (padding_count_int_range _ _ H).
    reflexivity.
  - intros H. rewrite bits_of_int, (padding_count_int_range _ _ H). reflexivity.
  - unfold int_range, INT_MAX. lia.
  - split; [apply bits_of_vector|]. split; [apply bits_of_initializer_list|].
    split; [apply bits_of_string_ctor|]. split; [apply bits_of_cstring|].
    apply bits_of_int.
  - reflexivity.
Qed.

Lemma construction_padding_rule_witness :
  bits_ (dynamic_bitset_of_vector 5 [true; false; true; false])
  = padding_rule (5 - 4) [true; false; true; false]
  /\ bits_ (dynamic_bitset_of_vector 2 [true; false; true; false])
     = padding_rule (2 - 4) [true; false; true; false].
Proof.
  split.
  - refine (proj1 (proj1 (construction_padding_rule 5 [true; false; true; false]
                            EmptyString 0) _)).
    vm_compute. split; discriminate.
  - refine (proj1 (proj1 (construction_padding_rule 2 [true; false; true; false]
                            EmptyString 0) _)).
    vm_compute. split; discriminate.
Defined.

Lemma wide_N_value : Z.of_nat wide_N = 2 ^ 32 + 2.
Proof. unfold wide_N. apply Z2Nat.id. discriminate. Qed.

(** C9 as stated fails where [N - source_length] is not a value of [int]: for
    the target length [2^32 + 2] and a source of one bit, the difference is
    [2^32 + 1], the constructor computes the padding count 1 and puts a
    single false bit in front. *)
Lemma construction_truncates_padding_count :
  Z.of_nat wide_N - Z.of_nat (length [true]) = 2 ^ 32 + 1
  /\ padding_count wide_N (length [true]) = 1
  /\ bits_ (dynamic_bitset_of_vector wide_N [true]) = [false; true]
  /\ bits_ (dynamic_bitset_of_vector wide_N [true])
     <> padding_rule (Z.of_nat wide_N - Z.of_nat (length [true])) [true].
Proof.
  assert (Hpc : padding_count wide_N (length [true]) = 1).
  { unfold padding_count. rewrite wide_N_value. reflexivity. }
  split; [rewrite wide_N_value; reflexivity|].
  split; [exact Hpc|].
  split; [rewrite bits_of_vector, Hpc; reflexivity|].
  rewrite bits_of_vector, Hpc, wide_N_value.
  intros H. apply (f_equal length) in H.
  rewrite !length_padding_rule in H.
  apply (f_equal Z.of_nat) in H.
  rewrite !Nat2Z.inj_add, !Z2Nat.id in H by discriminate.
  vm_compute in H. discriminate H.
Qed.

(** ** Strings and bit vectors are converted back and forth *)

(** C6.  For a boolean sequence [v] of length [N], the bitset of length [N]
    built from [v], converted to its string of '0' and '1' and built again
    from that string, is equal to the first bitset.  The other way round, a
    string of '0' and '1' of length [N] is given back by [to_string] from the
    bitset built from it. *)
Theorem string_roundtrip (N : nat) (v : list bool) (s : string) :
  (length v = N ->
   dynamic_bitset_of_string N (to_string (dynamic_bitset_of_vector N v))
   = dynamic_bitset_of_vector N v)
  /\ (String.length s = N -> binary_string s = true ->
      to_string (dynamic_bitset_of_string N s) = s).
Proof.
  split.
  - intros Hlen.
    apply bitset_eq.
    rewrite bits_of_string_ctor, to_string_spec, bits_of_vector_exact by exact Hlen.
    rewrite length_string_of_bits, Hlen, padding_count_diag, bits_of_string_of_bits.
    apply padding_rule_nonpos. lia.
  - intros Hlen Hbin.
    rewrite to_string_spec, bits_of_string_ctor, Hlen, padding_count_diag.
    rewrite padding_rule_nonpos by lia.
    apply string_of_bits_of_string, Hbin.
Qed.

Lemma string_roundtrip_witness :
  dynamic_bitset_of_string 3
    (to_string (dynamic_bitset_of_vector 3 [true; false; true]))
  = dynamic_bitset_of_vector 3 [true; false; true]
  /\ to_string (dynamic_bitset_of_string 3 "101") = "101".
Proof.
  split.
  - exact (proj1 (string_roundtrip 3 [true; false; true] "101") eq_refl).
  - exact (proj2 (string_roundtrip 3 [true; false; true] "101") eq_refl eq_refl).
Defined.

(** ** Quantifiers *)

(** C10.  On a bitset of length zero, [all()] is true, [any()] is false and
    [none()] is true: [all()] and [none()] hold together. *)
Theorem quantifiers_of_empty {N : nat} (d : dynamic_bitset N) :
  size d = 0%nat -> all d = true /\ any d = false /\ none d = true.
Proof.
  destruct d as [bits]. unfold size, all, any, none; simpl.
  intros Hlen. destruct bits as [|b bits]; [|discriminate Hlen].
  repeat split.
Qed.

Lemma quantifiers_of_empty_witness :
  all (dynamic_bitset_default 0) = true
  /\ any (dynamic_bitset_default 0) = false
  /\ none (dynamic_bitset_default 0) = true.
Proof. exact (quantifiers_of_empty (dynamic_bitset_default 0) eq_refl). Defined.

(** ** Element access *)

Lemma in_bounds_true (v : list bool) (i : Z) :
  in_bounds v i = true <-> 0 <= i < Z.of_nat (length v).
Proof. unfold in_bounds. rewrite andb_true_iff, Z.leb_le, Z.ltb_lt. reflexivity. Qed.

Lemma in_bounds_false (v : list bool) (i : Z) :
  in_bounds v i = false <-> ~ (0 <= i < Z.of_nat (length v)).
Proof. rewrite <- in_bounds_true. destruct (in_bounds v i); split; congruence. Qed.

Lemma in_bounds_of_nat (v : list bool) (i : nat) :
  (i < length v)%nat -> in_bounds v (Z.of_nat i) = true.
Proof. intros H. apply in_bounds_true. lia. Qed.

(** C8.  Element access, for reading and for writing, fails exactly when the
    index is not a position of the vector; the failure is the out-of-range
    error of the bounds-checked access, it reaches the caller, and the bitset
    is left as it was.  At a position of the vector the read returns the bit
    there, and the write replaces that bit and no other. *)
Theorem element_access {N : nat} (d : dynamic_bitset N) (index : Z) (value : bool) :
  (in_range d index ->
     operator_index_const d index = Ok (nth (Z.to_nat index) (bits_ d) false)
     /\ index_assign d index value
        = (Ok tt, mk_bitset (<[Z.to_nat index := value]> (bits_ d))))
  /\ (~ in_range d index ->
     operator_index_const d index = OutOfRange index (size d)
     /\ index_assign d index value = (OutOfRange index (size d), d))
  /\ (is_Ok (operator_index_const d index) = false <-> ~ in_range d index)
  /\ (is_Ok (fst (index_assign d index value)) = false <-> ~ in_range d index)
  /\ size (snd (index_assign d index value)) = size d.
Proof.
  unfold in_range, size, operator_index_const, index_assign, operator_index,
    vec_at, reference_assign.
  destruct (in_bounds (bits_ d) index) eqn:Hb.
  - apply in_bounds_true in Hb. simpl.
    repeat split; try (intros; tauto); try discriminate.
    apply length_insert.
  - apply in_bounds_false in Hb. simpl.
    repeat split; try (intros; tauto); try discriminate.
Qed.

Lemma element_access_witness :
  let x := dynamic_bitset_of_int 0 11 in
  (operator_index_const x 2 = Ok true
   /\ index_assign x 2 false = (Ok tt, mk_bitset [true; false; false; true]))
  /\ (operator_index_const x 4 = OutOfRange 4 4
      /\ index_assign x 4 false = (OutOfRange 4 4, x)).
Proof.
  intros x. split.
  - apply (proj1 (element_access x 2 false)). vm_compute.
    split; [discriminate | reflexivity].
  - apply (proj1 (proj2 (element_access x 4 false))). vm_compute. intros [_ H].
    discriminate H.
Defined.

(** ** Shifts by at least the length *)

(** C3.  For every bitset and every shift amount [k] at least its length, the
    left shift and the right shift both leave an all-false vector of the same
    length, whatever the bits were. *)
Theorem shift_by_length_or_more {N : nat} (d : dynamic_bitset N) (k : Z)
    (fuel : nat) :
  Z.of_nat (size d) <= k ->
  operator_shl_assign d k = Ok (mk_bitset (replicate (size d) false))
  /\ operator_shr_assign fuel d k = Ok (mk_bitset (replicate (size d) false))
  /\ length (replicate (size d) false) = size d
  /\ (forall i : nat, (i < size d)%nat -> replicate (size d) false !! i = Some false).
Proof.
  intros Hk.
  unfold operator_shl_assign, operator_shl_assign_with, operator_shr_assign, size in *.
  destruct (Z.leb_spec (Z.of_nat (length (bits_ d))) k) as [_|Hlt]; [|lia].
  repeat split.
  - apply length_replicate.
  - intros i Hi. apply lookup_replicate_2, Hi.
Qed.

Lemma shift_by_length_or_more_witness :
  let y := dynamic_bitset_of_string 0 "10101" in
  operator_shl_assign y 5 = Ok (mk_bitset [false; false; false; false; false])
  /\ operator_shr_assign 0 y 7 = Ok (mk_bitset [false; false; false; false; false]).
Proof.
  intros y.
  assert (H5 : Z.of_nat (size y) <= 5) by (vm_compute; discriminate).
  assert (H7 : Z.of_nat (size y) <= 7) by (vm_compute; discriminate).
  split.
  - exact (proj1 (shift_by_length_or_more y 5 0 H5)).
  - exact (proj1 (proj2 (shift_by_length_or_more y 7 0 H7))).
Defined.

(** ** Loops and unchecked accesses *)

Lemma bind_Ok {A B : Type} (a : A) (k : A -> result B) : (Ok a ≫= k) = k a.
Proof. reflexivity. Qed.

Lemma for_up_add {St : Type} (a b : nat) (i : Z)
    (body : Z -> St -> result St) (s : St) :
  for_up (a + b) i body s
  = (s' ← for_up a i body s; for_up b (i + Z.of_nat a) body s').
Proof.
  revert i s. induction a as [|a IH]; intros i s.
  - cbn [for_up Nat.add]. rewrite bind_Ok, Z.add_0_r. reflexivity.
  - cbn [for_up Nat.add]. destruct (body i s) as [s1| | | |]; try reflexivity.
    rewrite !bind_Ok, IH. replace (i + 1 + Z.of_nat a) with (i + Z.of_nat (S a)) by lia.
    reflexivity.
Qed.

Lemma for_up_snoc {St : Type} (n : nat) (i : Z)
    (body : Z -> St -> result St) (s : St) :
  for_up (S n) i body s = (s' ← for_up n i body s; body (i + Z.of_nat n) s').
Proof.
  replace (S n) with (n + 1)%nat by lia. rewrite for_up_add.
  destruct (for_up n i body s) as [s'| | | |]; try reflexivity.
  rewrite !bind_Ok. simpl. destruct (body (i + Z.of_nat n) s'); reflexivity.
Qed.

Lemma vec_read_lookup (v : list bool) (i : nat) (x : bool) :
  v !! i = Some x -> vec_read v (Z.of_nat i) = Ok x.
Proof.
  intros Hx. unfold vec_read, vec_read_with.
  rewrite in_bounds_of_nat by (apply lookup_lt_is_Some; eauto).
  rewrite Nat2Z.id, (nth_lookup_Some _ _ _ _ Hx). reflexivity.
Qed.

Lemma vec_at_lookup (v : list bool) (i : nat) (x : bool) :
  v !! i = Some x -> vec_at v (Z.of_nat i) = Ok x.
Proof.
  intros Hx. unfold vec_at.
  rewrite in_bounds_of_nat by (apply lookup_lt_is_Some; eauto).
  rewrite Nat2Z.id, (nth_lookup_Some _ _ _ _ Hx). reflexivity.
Qed.

Lemma vec_write_lt (v : list bool) (i : nat) (b : bool) :
  (i < length v)%nat -> vec_write v (Z.of_nat i) b = Ok (<[i := b]> v).
Proof.
  intros Hi. unfold vec_write. rewrite in_bounds_of_nat by exact Hi.
  rewrite Nat2Z.id. reflexivity.
Qed.

Lemma vec_read_outside (v : list bool) (i : Z) :
  ~ (0 <= i < Z.of_nat (length v)) -> vec_read v i = Undefined i.
Proof.
  intros H. unfold vec_read, vec_read_with.
  apply in_bounds_false in H. rewrite H. reflexivity.
Qed.

Lemma lookup_nth (v : list bool) (i : nat) :
  (i < length v)%nat -> v !! i = Some (nth i v false).
Proof.
  intros Hi. destruct (nth_lookup_or_length v i false) as [H|H]; [exact H | lia].
Qed.

(** A loop that stores the same bit at [c] positions in a row. *)
Lemma fill_loop (c lo : nat) (b : bool) (v : list bool) :
  (lo + c <= length v)%nat ->
  for_up c (Z.of_nat lo) (fun i bits => vec_write bits i b) v
  = Ok (take lo v ++ replicate c b ++ drop (lo + c) v).
Proof.
  induction c as [|c IH]; intros Hlen.
  - simpl. rewrite Nat.add_0_r, take_drop. reflexivity.
  - rewrite for_up_snoc, IH by lia. rewrite bind_Ok.
    replace (Z.of_nat lo + Z.of_nat c) with (Z.of_nat (lo + c)) by lia.
    rewrite vec_write_lt
      by (rewrite !length_app, length_take, length_replicate, length_drop; lia).
    f_equal.
    rewrite insert_app_r_alt by (rewrite length_take; lia).
    rewrite insert_app_r_alt by (rewrite length_take, length_replicate; lia).
    rewrite length_take, length_replicate.
    replace (lo + c - lo `min` length v - c)%nat with O by lia.
    destruct (lookup_lt_is_Some_2 v (lo + c)) as [x Hx]; [lia|].
    rewrite (drop_S _ _ _ Hx). simpl.
    replace (lo + S c)%nat with (S (lo + c)) by lia.
    f_equal. rewrite (cons_middle b (replicate c b)), app_assoc.
    rewrite <- replicate_cons_app. reflexivity.
Qed.

Lemma for_range_0 {St : Type} (m : nat) (body : Z -> St -> result St) (s : St) :
  for_range 0 (Z.of_nat m) body s = for_up m 0 body s.
Proof. unfold for_range. rewrite Z.sub_0_r, Nat2Z.id. reflexivity. Qed.

(** An [int] counter that stays below [INT_MAX] counts as any counter. *)
Lemma for_int_up_in_range {St : Type} (n : nat) (i : Z)
    (body : Z -> St -> result St) (s : St) :
  i + Z.of_nat n <= INT_MAX ->
  for_int_up n i body s = for_up n i body s.
Proof.
  revert i s. induction n as [|n IH]; intros i s Hi; [reflexivity|].
  cbn [for_int_up for_up]. destruct (body i s) as [s'| | | |]; try reflexivity.
  rewrite !bind_Ok.
  destruct (Z.leb_spec INT_MAX i) as [H|_]; [lia|]. apply IH. lia.
Qed.

(** A loop of more than [INT_MAX] passes, none of which fails, ends in the
    overflow of its counter. *)
Lemma for_int_up_overflow {St : Type} (n : nat) (i : Z)
    (body : Z -> St -> result St) (s : St) :
  i <= INT_MAX -> INT_MAX < i + Z.of_nat n ->
  (forall m : nat, (m <= n)%nat -> is_Ok (for_up m i body s) = true) ->
  for_int_up n i body s = IntOverflow.
Proof.
  revert i s. induction n as [|n IH]; intros i s Hle Hi Hok; [lia|].
  cbn [for_int_up].
  pose proof (Hok 1%nat ltac:(lia)) as H1. cbn [for_up] in H1.
  destruct (body i s) as [s'| | | |] eqn:Hbody; try discriminate H1.
  rewrite bind_Ok.
  destruct (Z.leb_spec INT_MAX i) as [_|Hlt]; [reflexivity|].
  apply IH; [lia | lia |].
  intros m Hm. specialize (Hok (S m) ltac:(lia)).
  cbn [for_up] in Hok. rewrite Hbody, bind_Ok in Hok. exact Hok.
Qed.

Lemma for_int_in_range {St : Type} (n : nat)
    (body : Z -> St -> result St) (s : St) :
  Z.of_nat n <= INT_MAX -> for_int n body s = for_up n 0 body s.
Proof. intros Hn. apply for_int_up_in_range. lia. Qed.

Lemma for_int_overflow {St : Type} (n : nat)
    (body : Z -> St -> result St) (s : St) :
  INT_MAX < Z.of_nat n ->
  (forall m : nat, (m <= n)%nat -> is_Ok (for_up m 0 body s) = true) ->
  for_int n body s = IntOverflow.
Proof.
  intros Hn Hok. apply for_int_up_overflow; [unfold INT_MAX; lia | lia | exact Hok].
Qed.

(** ** Bitwise operators *)

Lemma bitwise_new_loop (op : bool -> bool -> bool) (t o : list bool) (n : nat) :
  (n <= length t)%nat -> (n <= length o)%nat ->
  for_up n 0
    (fun i set_ => x ← vec_at o i; b ← vec_read t i; Ok (set_ ++ [op x b])) []
  = Ok (zip_with op (take n o) (take n t)).
Proof.
  induction n as [|n IH]; intros Ht Ho; [reflexivity|].
  rewrite for_up_snoc, IH by lia. rewrite bind_Ok, Z.add_0_l.
  destruct (lookup_lt_is_Some_2 t n) as [y Hy]; [lia|].
  destruct (lookup_lt_is_Some_2 o n) as [x Hx]; [lia|].
  rewrite (vec_at_lookup _ _ _ Hx), bind_Ok, (vec_read_lookup _ _ _ Hy), bind_Ok.
  rewrite (take_S_r _ _ _ Hx), (take_S_r _ _ _ Hy).
  rewrite zip_with_app by (rewrite !length_take; lia).
  reflexivity.
Qed.

(** The non-assigning operators, the shorter length within [int]: the bits
    are combined position by position over the shorter length, and the result
    goes through the constructor from a vector of bools, padding included. *)
Lemma bitwise_new_spec {N : nat} (op : bool -> bool -> bool)
    (this other : dynamic_bitset N) :
  Z.of_nat (size this `min` size other) <= INT_MAX ->
  bitwise_new op this other
  = Ok (dynamic_bitset_of_vector N (zip_with op (bits_ other) (bits_ this))).
Proof.
  unfold bitwise_new, operator_index_const, size. intros Hmax.
  rewrite for_int_in_range by exact Hmax.
  rewrite bitwise_new_loop by lia.
  rewrite bind_Ok. rewrite zip_with_take_both' by lia. reflexivity.
Qed.

(** Beyond [int], the counter of the loop overflows. *)
Lemma bitwise_new_overflow {N : nat} (op : bool -> bool -> bool)
    (this other : dynamic_bitset N) :
  INT_MAX < Z.of_nat (size this `min` size other) ->
  bitwise_new op this other = IntOverflow.
Proof.
  unfold bitwise_new, operator_index_const, size. intros Hmax.
  rewrite for_int_overflow; [reflexivity | exact Hmax |].
  intros m Hm. rewrite bitwise_new_loop by lia. reflexivity.
Qed.

Lemma bitwise_assign_loop (op : bool -> bool -> bool) (t o : list bool) (n : nat) :
  (n <= length t)%nat -> (n <= length o)%nat ->
  for_up n 0
    (fun i bits => b ← vec_read bits i; x ← vec_read o i; vec_write bits i (op b x))
    t
  = Ok (zip_with op (take n t) (take n o) ++ drop n t).
Proof.
  induction n as [|n IH]; intros Ht Ho; [reflexivity|].
  rewrite for_up_snoc, IH by lia. rewrite bind_Ok, Z.add_0_l.
  destruct (lookup_lt_is_Some_2 t n) as [y Hy]; [lia|].
  destruct (lookup_lt_is_Some_2 o n) as [x Hx]; [lia|].
  assert (Hz : length (zip_with op (take n t) (take n o)) = n)
    by (rewrite length_zip_with, !length_take; lia).
  assert (Hy' : (zip_with op (take n t) (take n o) ++ drop n t) !! n = Some y).
  { rewrite lookup_app_r, Hz, Nat.sub_diag, lookup_drop, Nat.add_0_r by lia.
    exact Hy. }
  rewrite (vec_read_lookup _ _ _ Hy'), bind_Ok.
  rewrite (vec_read_lookup _ _ _ Hx), bind_Ok.
  rewrite vec_write_lt by (rewrite length_app, Hz, length_drop; lia).
  f_equal.
  rewrite insert_app_r_alt, Hz, Nat.sub_diag by lia.
  rewrite (drop_S _ _ _ Hy). simpl.
  rewrite (take_S_r _ _ _ Hx), (take_S_r _ _ _ Hy).
  rewrite zip_with_app by (rewrite !length_take; lia).
  rewrite <- app_assoc. reflexivity.
Qed.

(** The compound assignments: the first [min] positions are combined, the
    rest of [bits_] is carried over. *)
Lemma bitwise_assign_spec {N : nat} (op : bool -> bool -> bool)
    (this other : dynamic_bitset N) :
  Z.of_nat (size this `min` size other) <= INT_MAX ->
  bitwise_assign op this other
  = Ok (mk_bitset
          (zip_with op (bits_ this) (bits_ other)
           ++ drop (size this `min` size other) (bits_ this))).
Proof.
  unfold bitwise_assign, size. intros Hmax.
  rewrite for_int_in_range by exact Hmax.
  rewrite bitwise_assign_loop by lia.
  rewrite bind_Ok. rewrite zip_with_take_both' by lia. reflexivity.
Qed.

(** Beyond [int], the counter of the loop overflows. *)
Lemma bitwise_assign_overflow {N : nat} (op : bool -> bool -> bool)
    (this other : dynamic_bitset N) :
  INT_MAX < Z.of_nat (size this `min` size other) ->
  bitwise_assign op this other = IntOverflow.
Proof.
  unfold bitwise_assign, size. intros Hmax.
  rewrite for_int_overflow; [reflexivity | exact Hmax |].
  intros m Hm. rewrite bitwise_assign_loop by lia. reflexivity.
Qed.

Lemma zip_with_comm (op : bool -> bool -> bool) (l k : list bool) :
  (forall x y, op x y = op y x) -> zip_with op l k = zip_with op k l.
Proof.
  intros Hop. revert k. induction l as [|x l IH]; intros [|y k]; simpl;
    [reflexivity .. |]. rewrite Hop, IH. reflexivity.
Qed.

Lemma lookup_zip_with_lt (op : bool -> bool -> bool) (l k : list bool) (i : nat) :
  (i < length l `min` length k)%nat ->
  zip_with op l k !! i = Some (op (nth i l false) (nth i k false)).
Proof.
  intros Hi. rewrite lookup_zip_with.
  rewrite (lookup_nth l i), (lookup_nth k i) by lia. reflexivity.
Qed.

(** Operands whose length is at least [N]: every constructor yields one. *)
Lemma size_of_vector_ge (N : nat) (binaries : list bool) :
  Z.of_nat N <= INT_MAX -> Z.of_nat (length binaries) <= INT_MAX ->
  size (dynamic_bitset_of_vector N binaries) = (N `max` length binaries)%nat.
Proof.
  intros HN Hb. unfold size. rewrite bits_of_vector, length_padding_rule.
  rewrite padding_count_exact by (unfold INT_MAX in *; lia). lia.
Qed.

(** The padding of the result of a non-assigning operator vanishes when both
    operands have at least [N] bits. *)
Lemma bits_of_vector_long (N : nat) (binaries : list bool) :
  (N <= length binaries)%nat -> Z.of_nat (length binaries) <= INT_MAX ->
  dynamic_bitset_of_vector N binaries = mk_bitset binaries.
Proof.
  intros HN Hb. apply bitset_eq. rewrite bits_of_vector. simpl.
  apply padding_rule_nonpos.
  rewrite padding_count_exact by (unfold INT_MAX in *; lia). lia.
Qed.

(** Every constructor leaves at least [N] bits, sizes within [int]. *)
Lemma length_padded_ge (N : nat) (source : list bool) :
  Z.of_nat N <= INT_MAX -> Z.of_nat (length source) <= INT_MAX ->
  (N <= length (padding_rule (padding_count N (length source)) source))%nat.
Proof.
  intros HN Hs. rewrite length_padding_rule.
  rewrite padding_count_exact by (unfold INT_MAX in *; lia). lia.
Qed.

Lemma constructed_size_ge (N : nat) (source : list bool) (s : string) (value : Z) :
  Z.of_nat N <= INT_MAX ->
  (Z.of_nat (length source) <= INT_MAX ->
     (N <= size (dynamic_bitset_of_vector N source))%nat
     /\ (N <= size (dynamic_bitset_of_initializer_list N source))%nat)
  /\ (Z.of_nat (String.length s) <= INT_MAX ->
     (N <= size (dynamic_bitset_of_string N s))%nat)
  /\ (Z.of_nat (String.length (c_chars s)) <= INT_MAX ->
     (N <= size (dynamic_bitset_of_cstring N s))%nat)
  /\ (Z.of_nat (length (int_to_binary value)) <= INT_MAX ->
     (N <= size (dynamic_bitset_of_int N value))%nat)
  /\ size (dynamic_bitset_default N) = N.
Proof.
  intros HN. unfold size. split; [|split; [|split; [|split]]].
  - intros Hs. split.
    + rewrite bits_of_vector. apply length_padded_ge; assumption.
    + rewrite bits_of_initializer_list. apply length_padded_ge; assumption.
  - intros Hs. rewrite bits_of_string_ctor, <- length_bits_of_string.
    apply length_padded_ge; [|rewrite length_bits_of_string]; assumption.
  - intros Hs. rewrite bits_of_cstring, <- length_bits_of_string.
    apply length_padded_ge; [|rewrite length_bits_of_string]; assumption.
  - intros Hs. rewrite bits_of_int. apply length_padded_ge; assumption.
  - apply length_vec_assign.
Qed.

(** C1, amended.  For two bitsets [a] and [b] of the same class, of possibly
    different lengths, both at least the template length [N] and the shorter
    one within the range of [int]: the non-assigning AND, OR and XOR return a
    new bitset of length [min (size a) (size b)] whose bit at each position
    [i] below that minimum is [a[i]] combined with [b[i]] by [&&], [||] and
    inequality. *)
Theorem bitwise_operators {N : nat} (a b : dynamic_bitset N) :
  (N <= size a)%nat -> (N <= size b)%nat ->
  Z.of_nat (size a `min` size b) <= INT_MAX ->
  operator_and a b = Ok (mk_bitset (zip_with andb (bits_ a) (bits_ b)))
  /\ operator_or a b = Ok (mk_bitset (zip_with orb (bits_ a) (bits_ b)))
  /\ operator_xor a b
     = Ok (mk_bitset (zip_with (fun x y => negb (Bool.eqb x y)) (bits_ a) (bits_ b)))
  /\ forall op : bool -> bool -> bool,
       length (zip_with op (bits_ a) (bits_ b)) = (size a `min` size b)%nat
       /\ forall i : nat, (i < size a `min` size b)%nat ->
            zip_with op (bits_ a) (bits_ b) !! i
            = Some (op (nth i (bits_ a) false) (nth i (bits_ b) false)).
Proof.
  intros Ha Hb Hmax. unfold size in *.
  assert (Hnew : forall op, (forall x y, op x y = op y x) ->
            bitwise_new op a b = Ok (mk_bitset (zip_with op (bits_ a) (bits_ b)))).
  { intros op Hop. rewrite bitwise_new_spec by exact Hmax.
    rewrite (zip_with_comm op _ _ Hop).
    rewrite bits_of_vector_long; [reflexivity | |]; rewrite length_zip_with; lia. }
  split; [|split; [|split]].
  - apply (Hnew andb), andb_comm.
  - apply (Hnew orb), orb_comm.
  - unfold operator_xor. rewrite (Hnew xorb xorb_comm). do 2 f_equal.
    apply zip_with_ext; [|reflexivity..]. intros [] []; reflexivity.
  - intros op. split; [apply length_zip_with | apply lookup_zip_with_lt].
Qed.

Lemma bitwise_operators_witness :
  operator_and (dynamic_bitset_of_cstring 0 "010010") (dynamic_bitset_of_cstring 0 "10101")
  = Ok (mk_bitset [false; false; false; false; true]).
Proof.
  refine (proj1 (bitwise_operators (dynamic_bitset_of_cstring 0 "010010")
                   (dynamic_bitset_of_cstring 0 "10101") _ _ _)).
  - vm_compute. lia.
  - vm_compute. lia.
  - vm_compute. discriminate.
Defined.

(** C1 as stated fails on a moved-from operand: the operands have lengths 0
    and 5, and the result has length 5, not 0. *)
Lemma bitwise_and_pads_to_N :
  size moved_from_5 = 0%nat
  /\ size (dynamic_bitset_of_string 5 "10101") = 5%nat
  /\ operator_and moved_from_5 (dynamic_bitset_of_string 5 "10101")
     = Ok (mk_bitset [false; false; false; false; false])
  /\ size (@mk_bitset 5 [false; false; false; false; false])
     <> (size moved_from_5 `min` size (dynamic_bitset_of_string 5 "10101"))%nat.
Proof. vm_compute. repeat split. discriminate. Qed.

(** ** Compound assignments *)

Lemma bitwise_assign_in_place {N : nat} (op : bool -> bool -> bool)
    (a b : dynamic_bitset N) (i : nat) :
  Z.of_nat (size a `min` size b) <= INT_MAX ->
  (size a `min` size b <= i)%nat ->
  assigned_in_place op a b i (bitwise_assign op a b).
Proof.
  intros Hmax Hi. unfold assigned_in_place.
  rewrite bitwise_assign_spec by exact Hmax. unfold size in *.
  eexists. split; [reflexivity|]. simpl.
  assert (Hz : length (zip_with op (bits_ a) (bits_ b))
               = (length (bits_ a) `min` length (bits_ b))%nat)
    by apply length_zip_with.
  split; [|split].
  - rewrite length_app, Hz, length_drop. lia.
  - rewrite lookup_app_r, Hz, lookup_drop by lia. f_equal. lia.
  - intros j Hj. rewrite lookup_app_l by lia. apply lookup_zip_with_lt, Hj.
Qed.

(** C2, amended.  For [a &= b], [a |= b] and [a ^= b] with the shorter of the
    two lengths within the range of [int], the type of the loop counter: the
    operation succeeds, the length of [a] is unchanged, and every position [i]
    of [a] at or beyond [min (size a) (size b)] holds the bit it held before;
    only the positions below that minimum are written, with the combined
    bits. *)
Theorem compound_assignment_frame {N : nat} (a b : dynamic_bitset N) (i : nat) :
  Z.of_nat (size a `min` size b) <= INT_MAX ->
  (size a `min` size b <= i)%nat ->
  assigned_in_place andb a b i (operator_and_assign a b)
  /\ assigned_in_place orb a b i (operator_or_assign a b)
  /\ assigned_in_place xorb a b i (operator_xor_assign a b).
Proof.
  intros Hmax Hi. repeat split; apply bitwise_assign_in_place; assumption.
Qed.

Lemma compound_assignment_frame_witness :
  assigned_in_place andb
    (dynamic_bitset_of_cstring 0 "111111") (dynamic_bitset_of_cstring 0 "000") 4
    (operator_and_assign
       (dynamic_bitset_of_cstring 0 "111111") (dynamic_bitset_of_cstring 0 "000")).
Proof.
  refine (proj1 (compound_assignment_frame
                   (dynamic_bitset_of_cstring 0 "111111")
                   (dynamic_bitset_of_cstring 0 "000") 4 _ _)).
  - vm_compute. discriminate.
  - vm_compute. lia.
Defined.

Lemma size_mk_bitset {N : nat} (bits : list bool) :
  size (@mk_bitset N bits) = length bits.
Proof. reflexivity. Qed.

Lemma size_two_to_31_zeros : Z.of_nat (size two_to_31_zeros) = 2 ^ 31.
Proof.
  unfold two_to_31_zeros. rewrite size_mk_bitset, length_replicate.
  apply Z2Nat.id. discriminate.
Qed.

(** C2 as stated fails on operands of [2^31] bits: the [int] counter of the
    loop reaches [INT_MAX] and its increment overflows, so no compound
    assignment returns. *)
Lemma compound_assignment_overflows_int :
  Z.of_nat (size two_to_31_zeros `min` size two_to_31_zeros) = INT_MAX + 1
  /\ operator_and_assign two_to_31_zeros two_to_31_zeros = IntOverflow
  /\ operator_or_assign two_to_31_zeros two_to_31_zeros = IntOverflow
  /\ operator_xor_assign two_to_31_zeros two_to_31_zeros = IntOverflow
  /\ is_Ok (operator_and_assign two_to_31_zeros two_to_31_zeros) = false.
Proof.
  assert (Hmin : Z.of_nat (size two_to_31_zeros `min` size two_to_31_zeros)
                 = INT_MAX + 1).
  { rewrite Nat.min_id, size_two_to_31_zeros. reflexivity. }
  assert (Hover : forall op, bitwise_assign op two_to_31_zeros two_to_31_zeros
                             = IntOverflow).
  { intros op. apply bitwise_assign_overflow. rewrite Hmin. lia. }
  split; [exact Hmin|].
  unfold operator_and_assign, operator_or_assign, operator_xor_assign.
  rewrite !Hover. repeat split.
Qed.

Example and_assign_shorter_operand :
  operator_and_assign
    (dynamic_bitset_of_cstring 0 "111111") (dynamic_bitset_of_cstring 0 "000")
  = Ok (mk_bitset [false; false; false; true; true; true]).
Proof. reflexivity. Qed.

(** ** Conversion to an unsigned integer *)

Lemma wrap_add (a b : Z) : wrap (wrap a + wrap b) = wrap (a + b).
Proof. unfold wrap. symmetry. apply Zplus_mod. Qed.

Lemma wrap_mul_2 (a : Z) : wrap (wrap a * 2) = wrap (a * 2).
Proof. unfold wrap. apply Zmult_mod_idemp_l. Qed.

Lemma to_ulong_loop_spec (rbits : list bool) (value k : Z) :
  0 <= k ->
  to_ulong_loop rbits (wrap value) (wrap (2 ^ k))
  = wrap (value + 2 ^ k * le_value rbits).
Proof.
  revert value k. induction rbits as [|bit rbits IH]; intros value k Hk; simpl.
  - f_equal. lia.
  - rewrite wrap_add, wrap_mul_2.
    replace (2 ^ k * 2) with (2 ^ (k + 1)) by (rewrite Z.pow_add_r; lia).
    destruct bit; rewrite IH by lia; f_equal; rewrite Z.pow_add_r by lia;
      simpl Z.b2z; lia.
Qed.

Lemma le_value_snoc (rbits : list bool) (bit : bool) :
  le_value (rbits ++ [bit])
  = le_value rbits + 2 ^ Z.of_nat (length rbits) * Z.b2z bit.
Proof.
  induction rbits as [|b rbits IH]; simpl length; cbn [le_value app].
  - simpl. lia.
  - rewrite IH, Nat2Z.inj_succ, Z.pow_succ_r by lia. lia.
Qed.

Lemma le_value_rev (bits : list bool) : le_value (rev bits) = binary_value bits.
Proof.
  induction bits as [|bit bits IH]; [reflexivity|].
  simpl rev. rewrite le_value_snoc, length_rev, IH. simpl. lia.
Qed.

Lemma binary_value_range (bits : list bool) :
  0 <= binary_value bits < 2 ^ Z.of_nat (length bits).
Proof.
  induction bits as [|bit bits IH]; [simpl; lia|].
  cbn [binary_value length]. rewrite Nat2Z.inj_succ, Z.pow_succ_r by lia.
  destruct bit; simpl Z.b2z; lia.
Qed.

Lemma to_ulong_spec {N : nat} (d : dynamic_bitset N) :
  to_ulong d = wrap (binary_value (bits_ d)).
Proof.
  unfold to_ulong.
  change 0 with (wrap 0) at 1. change 1 with (wrap (2 ^ 0)).
  rewrite to_ulong_loop_spec, le_value_rev by lia. f_equal. lia.
Qed.

(** C7, amended.  The unsigned-integer conversion returns the value of the bit
    sequence read as a big-endian binary number, reduced modulo [2^64]; for a
    bitset of at most 64 bits that is the value itself.  The bitset of length
    6 built from "10101" is 010101 and converts to 21. *)
Theorem to_ulong_value {N : nat} (d : dynamic_bitset N) :
  to_ulong d = binary_value (bits_ d) mod 2 ^ 64
  /\ (Z.of_nat (size d) <= 64 -> to_ulong d = binary_value (bits_ d))
  /\ to_string (dynamic_bitset_of_cstring 6 "10101") = "010101"
  /\ to_ulong (dynamic_bitset_of_cstring 6 "10101") = 21
  /\ to_ulong (dynamic_bitset_of_string 6 "10101") = 21.
Proof.
  split; [apply to_ulong_spec|]. split; [|repeat split].
  intros Hsize. rewrite to_ulong_spec. apply wrap_small.
  pose proof (binary_value_range (bits_ d)) as [H0 Hlt]. split; [exact H0|].
  eapply Z.lt_le_trans; [exact Hlt|].
  unfold SIZE_MOD, SIZE_BITS. apply Z.pow_le_mono_r; unfold size in Hsize; lia.
Qed.

Lemma to_ulong_value_witness :
  to_ulong (dynamic_bitset_of_int 0 10)
  = binary_value (bits_ (dynamic_bitset_of_int 0 10)).
Proof.
  refine (proj1 (proj2 (to_ulong_value (dynamic_bitset_of_int 0 10))) _).
  vm_compute. discriminate.
Defined.

(** C7 as stated fails on a bitset longer than a [std::size_t]: the accumulator
    wraps, and the conversion returns 0 where the value is [2^64]. *)
Lemma to_ulong_wraps_beyond_64_bits :
  size one_and_64_zeros = 65%nat
  /\ binary_value (bits_ one_and_64_zeros) = 2 ^ 64
  /\ to_ulong one_and_64_zeros = 0
  /\ to_ulong one_and_64_zeros <> binary_value (bits_ one_and_64_zeros).
Proof. vm_compute. repeat split. discriminate. Qed.

(** ** Right shift *)

(** The copy loop of the right shift, started [m] positions above
    [shift_amount > 0], moves the first [m] bits up and stops. *)
Lemma shr_copy_loop_spec (k m fuel : nat) (bits : list bool) :
  (0 < k)%nat -> (k + m <= length bits)%nat ->
  Z.of_nat (length bits) <= SIZE_MOD -> (m < fuel)%nat ->
  shr_copy_loop fuel (Z.of_nat k) (Z.of_nat (k + m) - 1) bits
  = Ok (take k bits ++ take m bits ++ drop (k + m) bits).
Proof.
  revert fuel bits. induction m as [|m IH]; intros fuel bits Hk Hlen Hmod Hfuel;
    (destruct fuel as [|fuel]; [lia|]); cbn [shr_copy_loop].
  - destruct (Z.leb_spec (Z.of_nat k) (Z.of_nat (k + 0) - 1)) as [H|_]; [lia|].
    rewrite Nat.add_0_r, take_0, app_nil_l, take_drop. reflexivity.
  - destruct (Z.leb_spec (Z.of_nat k) (Z.of_nat (k + S m) - 1)) as [_|H]; [|lia].
    destruct (lookup_lt_is_Some_2 bits m) as [x Hx]; [lia|].
    replace (wrap (Z.of_nat (k + S m) - 1 - Z.of_nat k)) with (Z.of_nat m)
      by (rewrite wrap_small; lia).
    rewrite (vec_read_lookup _ _ _ Hx), bind_Ok.
    replace (Z.of_nat (k + S m) - 1) with (Z.of_nat (k + m)) by lia.
    rewrite vec_write_lt by lia. rewrite bind_Ok.
    replace (wrap (Z.of_nat (k + m) - 1)) with (Z.of_nat (k + m) - 1)
      by (rewrite wrap_small; lia).
    rewrite IH by (rewrite ?length_insert; lia).
    f_equal.
    rewrite !take_insert_ge by lia.
    rewrite (take_S_r _ _ _ Hx), <- !app_assoc. do 2 f_equal.
    destruct (lookup_lt_is_Some_2 bits (k + m)) as [y Hy]; [lia|].
    rewrite (drop_S (<[(k + m)%nat := x]> bits) x (k + m))
      by (apply list_lookup_insert_eq; lia).
    rewrite drop_insert_lt by lia.
    replace (k + S m)%nat with (S (k + m)) by lia. reflexivity.
Qed.

(** The part of C4 the code keeps: for [0 < k < size], with fuel for the
    [size - k] passes of the loop and the test that ends it, the right shift
    returns, with [k] false bits in front of the first [size - k] bits. *)
Lemma operator_shr_assign_positive {N : nat} (d : dynamic_bitset N) (k fuel : nat) :
  (0 < k < size d)%nat -> Z.of_nat (size d) <= SIZE_MOD ->
  (size d - k < fuel)%nat ->
  operator_shr_assign fuel d (Z.of_nat k)
  = Ok (mk_bitset (replicate k false ++ take (size d - k) (bits_ d))).
Proof.
  unfold size. intros Hk Hmod Hfuel. unfold operator_shr_assign.
  destruct (Z.leb_spec (Z.of_nat (length (bits_ d))) (Z.of_nat k)) as [H|_]; [lia|].
  replace (wrap (Z.of_nat (length (bits_ d)) - 1))
    with (Z.of_nat (k + (length (bits_ d) - k)) - 1)
    by (rewrite wrap_small; lia).
  rewrite shr_copy_loop_spec by lia. rewrite bind_Ok.
  rewrite for_range_0.
  rewrite (fill_loop k 0)
    by (rewrite !length_app, !length_take, length_drop; lia).
  rewrite bind_Ok. do 2 f_equal. rewrite take_0. simpl. f_equal.
  rewrite drop_app_length'; [|rewrite length_take; lia].
  replace (k + (length (bits_ d) - k))%nat with (length (bits_ d)) by lia.
  rewrite drop_all, app_nil_r. reflexivity.
Qed.

(** With [shift_amount = 0] the test [i >= shift_amount] never fails: the
    loop copies each bit onto itself down to position 0, the counter wraps to
    [2^64 - 1], and the next pass accesses that position. *)
Lemma shr_copy_loop_zero (m fuel : nat) (bits : list bool) :
  (m < length bits)%nat -> Z.of_nat (length bits) < SIZE_MOD ->
  shr_copy_loop fuel 0 (Z.of_nat m) bits
  = if (fuel <=? S m)%nat then Timeout else Undefined (SIZE_MOD - 1).
Proof.
  revert fuel. induction m as [|m IH]; intros fuel Hm Hmod;
    (destruct fuel as [|fuel]; [reflexivity|]); cbn [shr_copy_loop].
  - destruct (lookup_lt_is_Some_2 bits 0) as [x Hx]; [lia|].
    change (0 <=? Z.of_nat 0) with true. cbn match.
    change (wrap (Z.of_nat 0 - 0)) with (Z.of_nat 0).
    rewrite (vec_read_lookup _ _ _ Hx), bind_Ok.
    rewrite vec_write_lt by lia. rewrite bind_Ok.
    change (wrap (Z.of_nat 0 - 1)) with (SIZE_MOD - 1).
    destruct fuel as [|fuel]; [reflexivity|]. cbn [shr_copy_loop].
    change (0 <=? SIZE_MOD - 1) with true. cbn match.
    change (wrap (SIZE_MOD - 1 - 0)) with (SIZE_MOD - 1).
    rewrite vec_read_outside by (rewrite length_insert; lia). reflexivity.
  - destruct (Z.leb_spec 0 (Z.of_nat (S m))) as [_|H]; [|lia].
    destruct (lookup_lt_is_Some_2 bits (S m)) as [x Hx]; [lia|].
    replace (wrap (Z.of_nat (S m) - 0)) with (Z.of_nat (S m))
      by (rewrite wrap_small; lia).
    rewrite (vec_read_lookup _ _ _ Hx), bind_Ok.
    rewrite vec_write_lt by lia. rewrite bind_Ok.
    rewrite (list_insert_id _ _ _ Hx).
    replace (wrap (Z.of_nat (S m) - 1)) with (Z.of_nat m)
      by (rewrite wrap_small; lia).
    rewrite IH by lia.
    destruct (Nat.leb_spec fuel (S m)), (Nat.leb_spec (S fuel) (S (S m)));
      try lia; reflexivity.
Qed.

(** C4 fails at [k = 0].  For every bitset of nonzero length, the right shift
    by 0 does not return, whatever the fuel: its copy loop runs off the low
    end of the vector, and once the counter has wrapped it accesses position
    [2^64 - 1], outside the storage. *)
Theorem right_shift_by_zero_runs_off {N : nat} (d : dynamic_bitset N) (fuel : nat) :
  (0 < size d)%nat -> Z.of_nat (size d) < SIZE_MOD ->
  is_Ok (operator_shr_assign fuel d 0) = false
  /\ ((size d < fuel)%nat ->
      operator_shr_assign fuel d 0 = Undefined (SIZE_MOD - 1)).
Proof.
  unfold size. intros Hpos Hmod. unfold operator_shr_assign.
  destruct (Z.leb_spec (Z.of_nat (length (bits_ d))) 0) as [H|_]; [lia|].
  replace (wrap (Z.of_nat (length (bits_ d)) - 1))
    with (Z.of_nat (length (bits_ d) - 1)) by (rewrite wrap_small; lia).
  rewrite shr_copy_loop_zero by lia.
  replace (S (length (bits_ d) - 1)) with (length (bits_ d)) by lia.
  destruct (Nat.leb_spec fuel (length (bits_ d))); split; try reflexivity; lia.
Qed.

Lemma right_shift_by_zero_runs_off_witness :
  is_Ok (operator_shr_assign 6 (dynamic_bitset_of_string 0 "10101") 0) = false
  /\ operator_shr_assign 6 (dynamic_bitset_of_string 0 "10101") 0
     = Undefined (SIZE_MOD - 1).
Proof.
  assert (Hpos : (0 < size (dynamic_bitset_of_string 0 "10101"))%nat)
    by (vm_compute; lia).
  assert (Hmod : Z.of_nat (size (dynamic_bitset_of_string 0 "10101")) < SIZE_MOD)
    by (vm_compute; reflexivity).
  assert (Hfuel : (size (dynamic_bitset_of_string 0 "10101") < 6)%nat)
    by (vm_compute; lia).
  split.
  - exact (proj1 (right_shift_by_zero_runs_off _ 6 Hpos Hmod)).
  - exact (proj2 (right_shift_by_zero_runs_off _ 6 Hpos Hmod) Hfuel).
Defined.

(** ** Left shift *)

Section LeftShift.
Variable stray : Z -> result bool.

Lemma vec_read_with_lookup (v : list bool) (i : nat) (x : bool) :
  v !! i = Some x -> vec_read_with stray v (Z.of_nat i) = Ok x.
Proof.
  intros Hx. unfold vec_read_with.
  rewrite in_bounds_of_nat by (apply lookup_lt_is_Some; eauto).
  rewrite Nat2Z.id, (nth_lookup_Some _ _ _ _ Hx). reflexivity.
Qed.

Lemma vec_read_with_outside (v : list bool) (i : Z) :
  ~ (0 <= i < Z.of_nat (length v)) -> vec_read_with stray v i = stray i.
Proof.
  intros H. unfold vec_read_with.
  apply in_bounds_false in H. rewrite H. reflexivity.
Qed.

(** The first [m] passes of the copy loop, while [i + shift_amount] is
    still a position of the vector. *)
Lemma shl_copy_inside (k m : nat) (bits : list bool) :
  (m + k <= length bits)%nat -> Z.of_nat (length bits) < SIZE_MOD ->
  for_up m 0 (shl_copy stray (Z.of_nat k)) bits
  = Ok (take m (drop k bits) ++ drop m bits).
Proof.
  induction m as [|m IH]; intros Hlen Hmod; [reflexivity|].
  rewrite for_up_snoc, IH by lia. rewrite bind_Ok, Z.add_0_l.
  destruct (lookup_lt_is_Some_2 bits (m + k)) as [x Hx]; [lia|].
  destruct (lookup_lt_is_Some_2 bits m) as [y Hy]; [lia|].
  assert (Ht : length (take m (drop k bits)) = m)
    by (rewrite length_take, length_drop; lia).
  unfold shl_copy.
  replace (wrap (Z.of_nat m + Z.of_nat k)) with (Z.of_nat (m + k))
    by (rewrite wrap_small; lia).
  rewrite (vec_read_with_lookup _ _ x), bind_Ok
    by (rewrite lookup_app_r, Ht, lookup_drop by lia; rewrite <- Hx; f_equal; lia).
  rewrite vec_write_lt by (rewrite length_app, Ht, length_drop; lia).
  f_equal.
  rewrite insert_app_r_alt, Ht, Nat.sub_diag by lia.
  rewrite (drop_S _ _ _ Hy). simpl.
  rewrite (take_S_r _ m x) by (rewrite lookup_drop, <- Hx; f_equal; lia).
  rewrite <- app_assoc. reflexivity.
Qed.
End LeftShift.

(** The last [shift_amount] passes of the copy loop read outside the
    storage.  Where such a read yields a bit and goes on, those passes
    overwrite the tail [B] with what they read. *)
Lemma shl_copy_outside (junk : Z -> bool) (j : nat) (A B : list bool) :
  (j <= length B)%nat ->
  Z.of_nat (length A + length B + length B) < SIZE_MOD ->
  exists J : list bool,
    length J = j
    /\ for_up j (Z.of_nat (length A))
         (shl_copy (fun i => Ok (junk i)) (Z.of_nat (length B))) (A ++ B)
       = Ok (A ++ J ++ drop j B).
Proof.
  induction j as [|j IH]; intros Hj Hmod.
  - exists []. split; [reflexivity|]. rewrite drop_0. reflexivity.
  - destruct IH as (J & HJ & Hloop); [lia | exact Hmod |].
    rewrite for_up_snoc, Hloop, bind_Ok. unfold shl_copy.
    rewrite wrap_small by lia.
    rewrite vec_read_with_outside
      by (rewrite !length_app, HJ, length_drop; lia).
    rewrite bind_Ok.
    replace (Z.of_nat (length A) + Z.of_nat j) with (Z.of_nat (length A + j)) by lia.
    rewrite vec_write_lt by (rewrite !length_app, HJ, length_drop; lia).
    destruct (lookup_lt_is_Some_2 B j) as [y Hy]; [lia|].
    eexists (J ++ [_]). split; [rewrite length_app, HJ; simpl; lia|].
    f_equal.
    subst j. rewrite insert_app_r, insert_app_r_alt by lia.
    rewrite Nat.sub_diag, (drop_S _ _ _ Hy). simpl.
    rewrite <- !app_assoc. reflexivity.
Qed.

(** The left shift on an implementation whose reads outside the storage yield
    some bit: the content comes out as a left shift should leave it. *)
Lemma operator_shl_assign_lenient_spec {N : nat} (junk : Z -> bool)
    (d : dynamic_bitset N) (k : nat) :
  (k < size d)%nat -> Z.of_nat (size d + size d) < SIZE_MOD ->
  operator_shl_assign_lenient junk d (Z.of_nat k)
  = Ok (mk_bitset (drop k (bits_ d) ++ replicate k false)).
Proof.
  unfold size. intros Hk Hmod.
  unfold operator_shl_assign_lenient, operator_shl_assign_with.
  set (bits := bits_ d) in *. set (n := length bits) in *.
  destruct (Z.leb_spec (Z.of_nat n) (Z.of_nat k)) as [H|_]; [lia|].
  rewrite for_range_0.
  pose proof (for_up_add (n - k) k 0
                (shl_copy (fun i => Ok (junk i)) (Z.of_nat k)) bits) as Hsplit.
  replace (n - k + k)%nat with n in Hsplit by lia.
  rewrite Hsplit; clear Hsplit. rewrite shl_copy_inside by (fold n; lia).
  rewrite bind_Ok, Z.add_0_l.
  rewrite take_ge by (rewrite length_drop; fold n; lia).
  assert (HA : length (drop k bits) = (n - k)%nat) by (rewrite length_drop; reflexivity).
  assert (HB : length (drop (n - k) bits) = k) by (rewrite length_drop; fold n; lia).
  destruct (shl_copy_outside junk k (drop k bits) (drop (n - k) bits))
    as (J & HJ & Hloop); [rewrite HB; lia | rewrite HA, HB; lia |].
  rewrite HA, HB in Hloop. rewrite Hloop, bind_Ok.
  rewrite (drop_ge (drop (n - k) bits) k), app_nil_r by (rewrite HB; lia).
  unfold for_range. rewrite wrap_small by lia.
  replace (Z.to_nat (Z.of_nat n - (Z.of_nat n - Z.of_nat k))) with k by lia.
  replace (Z.of_nat n - Z.of_nat k) with (Z.of_nat (n - k)) by lia.
  rewrite fill_loop by (rewrite length_app, HA, HJ; lia).
  rewrite bind_Ok. do 2 f_equal.
  rewrite take_app_length' by (symmetry; exact HA).
  rewrite (drop_ge (_ ++ J)) by (rewrite length_app, HA, HJ; lia).
  rewrite app_nil_r. reflexivity.
Qed.

(** The left shift as the language defines it: pass [size - k] of the copy
    loop reads position [size]. *)
Lemma operator_shl_assign_undefined {N : nat} (d : dynamic_bitset N) (k : nat) :
  (0 < k < size d)%nat -> Z.of_nat (size d) < SIZE_MOD ->
  operator_shl_assign d (Z.of_nat k) = Undefined (Z.of_nat (size d)).
Proof.
  unfold size. intros Hk Hmod.
  unfold operator_shl_assign, operator_shl_assign_with.
  set (bits := bits_ d) in *. set (n := length bits) in *.
  destruct (Z.leb_spec (Z.of_nat n) (Z.of_nat k)) as [H|_]; [lia|].
  rewrite for_range_0.
  pose proof (for_up_add (n - k) (S (k - 1)) 0
                (shl_copy (fun i => Undefined i) (Z.of_nat k)) bits) as Hsplit.
  replace (n - k + S (k - 1))%nat with n in Hsplit by lia.
  rewrite Hsplit; clear Hsplit. rewrite shl_copy_inside by (fold n; lia).
  rewrite bind_Ok, Z.add_0_l. cbn [for_up].
  assert (Hpass : shl_copy (fun i => Undefined i) (Z.of_nat k) (Z.of_nat (n - k))
                    (take (n - k) (drop k bits) ++ drop (n - k) bits)
                  = Undefined (Z.of_nat n)).
  { unfold shl_copy.
    replace (wrap (Z.of_nat (n - k) + Z.of_nat k)) with (Z.of_nat n)
      by (rewrite wrap_small; lia).
    rewrite vec_read_with_outside; [reflexivity|].
    rewrite length_app, length_take, !length_drop. fold n. lia. }
  rewrite Hpass. reflexivity.
Qed.

(** C5 fails on its first half.  For every bitset and every [k] with
    [0 < k < size], the copy loop of the left shift reads position [size],
    which is outside [0, size): as the language defines it, the operation is
    undefined there.  The second half is what the code aims at: on an
    implementation where those reads yield some bit and go on, the first
    [size - k] positions end with the bits that were [k] further, and the
    last [k] positions with false. *)
Theorem left_shift_reads_past_the_end {N : nat} (d : dynamic_bitset N) (k : nat) :
  (0 < k < size d)%nat -> Z.of_nat (size d + size d) < SIZE_MOD ->
  operator_shl_assign d (Z.of_nat k) = Undefined (Z.of_nat (size d))
  /\ in_bounds (bits_ d) (Z.of_nat (size d)) = false
  /\ forall junk : Z -> bool,
       operator_shl_assign_lenient junk d (Z.of_nat k)
       = Ok (mk_bitset (drop k (bits_ d) ++ replicate k false)).
Proof.
  intros Hk Hmod. split; [|split].
  - apply operator_shl_assign_undefined; [exact Hk | lia].
  - apply in_bounds_false. unfold size. lia.
  - intros junk. apply operator_shl_assign_lenient_spec; [lia | exact Hmod].
Qed.

Lemma left_shift_reads_past_the_end_witness :
  operator_shl_assign (dynamic_bitset_of_string 0 "10101") 2 = Undefined 5
  /\ forall junk : Z -> bool,
       operator_shl_assign_lenient junk (dynamic_bitset_of_string 0 "10101") 2
       = Ok (mk_bitset [true; false; true; false; false]).
Proof.
  assert (Hk : (0 < 2 < size (dynamic_bitset_of_string 0 "10101"))%nat)
    by (vm_compute; lia).
  assert (Hmod : Z.of_nat (size (dynamic_bitset_of_string 0 "10101")
                           + size (dynamic_bitset_of_string 0 "10101")) < SIZE_MOD)
    by (vm_compute; reflexivity).
  pose proof (left_shift_reads_past_the_end
                (dynamic_bitset_of_string 0 "10101") 2 Hk Hmod) as (H1 & _ & H3).
  split; [exact H1 | exact H3].
Defined.

(** ** The tests of the repository, replayed on the model *)

Example test_int_to_bit :
  get (dynamic_bitset_of_int 0 10) = [true; false; true; false]
  /\ get (dynamic_bitset_of_vector 5 [true; false; true; false])
     = [false; true; false; true; false].
Proof. split; reflexivity. Qed.

Example test_int_to_bit_padding :
  get (dynamic_bitset_of_int 5 10) = [false; true; false; true; false]
  /\ get (dynamic_bitset_of_initializer_list 6 [false; true; false; true; false])
     = [false; false; true; false; true; false].
Proof. split; reflexivity. Qed.

Example test_reverse :
  get (reverse (dynamic_bitset_of_int 5 11)) = [true; true; false; true; false].
Proof. reflexivity. Qed.

Example test_get : operator_index_const (dynamic_bitset_of_int 0 11) 1 = Ok false.
Proof. reflexivity. Qed.

Example test_subscript :
  get (snd (index_assign (snd (index_assign (dynamic_bitset_of_int 0 11) 0 false))
              2 false))
  = [false; false; false; true].
Proof. reflexivity. Qed.

Example test_all_any_none :
  all (dynamic_bitset_of_int 0 3) = true
  /\ all (dynamic_bitset_of_int 0 4) = false
  /\ any (dynamic_bitset_of_int 0 4) = true
  /\ any (dynamic_bitset_default 30) = false
  /\ none (dynamic_bitset_of_int 0 4) = false
  /\ none (dynamic_bitset_default 15) = true.
Proof. repeat split. Qed.

Example test_string_to_binary :
  get (dynamic_bitset_of_string 6 "10101")
  = [false; true; false; true; false; true].
Proof. reflexivity. Qed.

Example test_left_shift_operator (junk : Z -> bool) :
  operator_shl_assign_lenient junk (dynamic_bitset_of_string 0 "10101") 2
  = Ok (mk_bitset [true; false; true; false; false]).
Proof. reflexivity. Qed.

Example test_right_shift_operator :
  operator_shr_assign 4 (dynamic_bitset_of_string 0 "10101") 2
  = Ok (mk_bitset [false; false; true; false; true]).
Proof. reflexivity. Qed.

Example test_set :
  get (set (dynamic_bitset_of_cstring 6 "10101") false)
  = [false; false; false; false; false; false]
  /\ get (set (set (dynamic_bitset_of_cstring 6 "10101") false) true)
     = [true; true; true; true; true; true].
Proof. split; reflexivity. Qed.

Example test_to_string : to_string (dynamic_bitset_of_cstring 6 "10101") = "010101".
Proof. reflexivity. Qed.

Example test_and_operator :
  (z ← operator_and (dynamic_bitset_of_cstring 5 "10001")
         (dynamic_bitset_of_cstring 5 "10101"); Ok (to_string z)) = Ok "10001"
  /\ (x ← operator_and_assign (dynamic_bitset_of_cstring 5 "10001")
          (dynamic_bitset_of_cstring 5 "10101"); Ok (to_string x)) = Ok "10001"
  /\ (g ← operator_and (dynamic_bitset_of_cstring 0 "010010")
          (dynamic_bitset_of_cstring 0 "10101"); Ok (to_string g)) = Ok "00001".
Proof. repeat split. Qed.

Example test_or_operator :
  (z ← operator_or (dynamic_bitset_of_cstring 5 "10001")
         (dynamic_bitset_of_cstring 5 "10101"); Ok (to_string z)) = Ok "10101"
  /\ (x ← operator_or_assign (dynamic_bitset_of_cstring 5 "10001")
          (dynamic_bitset_of_cstring 5 "10101"); Ok (to_string x)) = Ok "10101"
  /\ (g ← operator_or (dynamic_bitset_of_cstring 0 "010010")
          (dynamic_bitset_of_cstring 0 "10101"); Ok (to_string g)) = Ok "11101".
Proof. repeat split. Qed.

Example test_xor_operator :
  (z ← operator_xor (dynamic_bitset_of_cstring 5 "10001")
         (dynamic_bitset_of_cstring 5 "10101"); Ok (to_string z)) = Ok "00100"
  /\ (x ← operator_xor_assign (dynamic_bitset_of_cstring 5 "10001")
          (dynamic_bitset_of_cstring 5 "10101"); Ok (to_string x)) = Ok "00100"
  /\ (g ← operator_xor (dynamic_bitset_of_cstring 0 "010010")
          (dynamic_bitset_of_cstring 0 "10101"); Ok (to_string g)) = Ok "11100".
Proof. repeat split. Qed.

(** * Further properties of the code *)

(** ** Values and padding *)

Lemma binary_value_app (l k : list bool) :
  binary_value (l ++ k)
  = binary_value l * 2 ^ Z.of_nat (length k) + binary_value k.
Proof.
  induction l as [|b l IH]; [simpl; lia|].
  cbn [app binary_value]. rewrite IH, length_app, Nat2Z.inj_add, Z.pow_add_r by lia.
  lia.
Qed.

Lemma binary_value_replicate_false (n : nat) :
  binary_value (replicate n false) = 0.
Proof. induction n as [|n IH]; [reflexivity|]. simpl. rewrite IH. lia. Qed.

Lemma binary_value_replicate_true (n : nat) :
  binary_value (replicate n true) = 2 ^ Z.of_nat n - 1.
Proof.
  induction n as [|n IH]; [reflexivity|].
  cbn [replicate binary_value]. rewrite IH, length_replicate.
  rewrite Nat2Z.inj_succ, Z.pow_succ_r by lia. simpl Z.b2z. lia.
Qed.

Lemma padding_rule_replicate (pad : Z) (source : list bool) :
  padding_rule pad source = replicate (Z.to_nat pad) false ++ source.
Proof.
  unfold padding_rule. destruct (Z.ltb_spec 0 pad); [reflexivity|].
  replace (Z.to_nat pad) with O by lia. reflexivity.
Qed.

Lemma binary_value_padding_rule (pad : Z) (source : list bool) :
  binary_value (padding_rule pad source) = binary_value source.
Proof.
  rewrite padding_rule_replicate, binary_value_app, binary_value_replicate_false.
  lia.
Qed.

Lemma padding_rule_exact (n m : nat) (source : list bool) :
  Z.of_nat n <= INT_MAX -> Z.of_nat m <= INT_MAX ->
  padding_rule (padding_count n m) source = replicate (n - m) false ++ source.
Proof.
  intros Hn Hm. rewrite padding_rule_replicate.
  rewrite padding_count_exact by (unfold INT_MAX in *; lia).
  do 2 f_equal. lia.
Qed.

(** X1.  A non-negative [int] is given back by [to_ulong] from the bitset
    built from it, whatever the target length [N]. *)
Theorem to_ulong_of_int (N : nat) (value : Z) :
  0 <= value <= INT_MAX ->
  to_ulong (dynamic_bitset_of_int N value) = value.
Proof.
  intros Hv. rewrite to_ulong_spec, bits_of_int, binary_value_padding_rule.
  rewrite int_to_binary_value by lia.
  apply wrap_small. unfold INT_MAX, SIZE_MOD, SIZE_BITS in *. lia.
Qed.

Lemma to_ulong_of_int_witness : to_ulong (dynamic_bitset_of_int 8 37) = 37.
Proof.
  apply to_ulong_of_int. vm_compute. split; discriminate.
Defined.

Lemma log2_half (value : Z) :
  0 < value / 2 -> Z.log2 value = Z.log2 (value / 2) + 1.
Proof.
  intros Hhalf.
  pose proof (Z.div_mod value 2 ltac:(lia)) as Hdm.
  pose proof (Z.mod_pos_bound value 2 ltac:(lia)) as Hb.
  assert (value mod 2 = 0 \/ value mod 2 = 1) as [H0|H1] by lia.
  - rewrite Hdm at 1. rewrite H0, Z.add_0_r, Z.log2_double by lia. lia.
  - rewrite Hdm at 1. rewrite H1, Z.log2_succ_double by lia. lia.
Qed.

(** The loop of [int_to_binary] on a positive [value]: the digits start with
    a set bit, and there are [log2 value + 1] of them. *)
Lemma int_to_binary_loop_shape (value : Z) (temp : list bool) :
  0 < value ->
  exists digits : list bool,
    snd (int_to_binary_loop value temp) = true :: digits ++ temp
    /\ length digits = Z.to_nat (Z.log2 value).
Proof.
  funelim (int_to_binary_loop value temp); intros Hpos; [|lia].
  destruct (Z_gt_dec (value / 2) 0) as [Hhalf|Hhalf].
  - match goal with
    | IH : 0 < _ -> exists _, _ |- _ => destruct IH as (ds & Hds & Hlen); [lia|]
    end.
    exists (ds ++ [negb (value mod 2 =? 0)]). split.
    + rewrite Hds, <- app_assoc. reflexivity.
    + rewrite length_app, Hlen. simpl.
      rewrite (log2_half value) by lia.
      pose proof (Z.log2_nonneg (value / 2)). lia.
  - assert (value = 1) as ->.
    { pose proof (Z.div_mod value 2 ltac:(lia)).
      pose proof (Z.mod_pos_bound value 2 ltac:(lia)).
      assert (0 <= value / 2) by (apply Z.div_pos; lia). lia. }
    exists []. split; reflexivity.
Qed.

(** X2.  [int_to_binary] writes a positive [value] with its leading bit set
    and [log2 value + 1] bits, so without leading zeros; 0 becomes the single
    bit false, and a negative [value] the single bit true. *)
Theorem int_to_binary_shape (value : Z) :
  (0 < value ->
     exists digits : list bool,
       int_to_binary value = true :: digits
       /\ length (int_to_binary value) = S (Z.to_nat (Z.log2 value))
       /\ binary_value (int_to_binary value) = value)
  /\ (value = 0 -> int_to_binary value = [false])
  /\ (value < 0 -> int_to_binary value = [true]).
Proof.
  split; [|split].
  - intros Hpos.
    destruct (int_to_binary_loop_shape value [] Hpos) as (ds & Hds & Hlen).
    assert (Hbin : int_to_binary value = true :: ds).
    { unfold int_to_binary.
      destruct (int_to_binary_loop value []) as [v temp]. simpl in Hds.
      subst temp. rewrite app_nil_r. reflexivity. }
    exists ds. split; [exact Hbin|]. split.
    + rewrite Hbin. simpl. rewrite Hlen. reflexivity.
    + apply int_to_binary_value. lia.
  - intros H0. rewrite H0. reflexivity.
  - intros Hneg. unfold int_to_binary.
    rewrite int_to_binary_loop_equation_1.
    destruct (Z_gt_dec value 0) as [H|H]; [lia|]. simpl.
    destruct (Z.eqb_spec value 0); [lia | reflexivity].
Qed.

Lemma int_to_binary_shape_witness :
  (exists digits : list bool,
     int_to_binary 11 = true :: digits
     /\ length (int_to_binary 11) = S (Z.to_nat (Z.log2 11))
     /\ binary_value (int_to_binary 11) = 11)
  /\ int_to_binary 0 = [false]
  /\ int_to_binary (-3) = [true].
Proof.
  split; [|split].
  - apply (proj1 (int_to_binary_shape 11)). reflexivity.
  - apply (proj1 (proj2 (int_to_binary_shape 0))). reflexivity.
  - apply (proj2 (proj2 (int_to_binary_shape (-3)))). reflexivity.
Defined.

(** X3.  With sizes that fit an [int], every constructor leaves exactly
    [max N source_length] bits: a source shorter than [N] is padded up to [N],
    a longer one is kept whole and never cut. *)
Theorem constructed_size (N : nat) (source : list bool) (s : string) (value : Z) :
  Z.of_nat N <= INT_MAX ->
  (Z.of_nat (length source) <= INT_MAX ->
     size (dynamic_bitset_of_vector N source) = (N `max` length source)%nat
     /\ size (dynamic_bitset_of_initializer_list N source)
        = (N `max` length source)%nat)
  /\ (Z.of_nat (String.length s) <= INT_MAX ->
     size (dynamic_bitset_of_string N s) = (N `max` String.length s)%nat)
  /\ (Z.of_nat (String.length (c_chars s)) <= INT_MAX ->
     size (dynamic_bitset_of_cstring N s)
     = (N `max` String.length (c_chars s))%nat)
  /\ (Z.of_nat (length (int_to_binary value)) <= INT_MAX ->
     size (dynamic_bitset_of_int N value)
     = (N `max` length (int_to_binary value))%nat)
  /\ size (dynamic_bitset_default N) = N.
Proof.
  intros HN.
  assert (Hlen : forall n src, Z.of_nat n <= INT_MAX -> length src = n ->
            length (padding_rule (padding_count N n) src) = (N `max` n)%nat).
  { intros n src Hn Hsrc. rewrite padding_rule_exact by assumption.
    rewrite length_app, length_replicate. lia. }
  unfold size. split; [|split; [|split; [|split]]].
  - intros Hs. split.
    + rewrite bits_of_vector. apply Hlen; [assumption | reflexivity].
    + rewrite bits_of_initializer_list. apply Hlen; [assumption | reflexivity].
  - intros Hs. rewrite bits_of_string_ctor.
    apply Hlen; [assumption | apply length_bits_of_string].
  - intros Hs. rewrite bits_of_cstring.
    apply Hlen; [assumption | apply length_bits_of_string].
  - intros Hs. rewrite bits_of_int. apply Hlen; [assumption | reflexivity].
  - apply length_vec_assign.
Qed.

Lemma constructed_size_witness :
  size (dynamic_bitset_of_vector 3 [true; false; true; true; false]) = 5%nat
  /\ size (dynamic_bitset_of_string 6 "101") = 6%nat.
Proof.
  assert (H3 : Z.of_nat 3 <= INT_MAX) by (vm_compute; discriminate).
  assert (H6 : Z.of_nat 6 <= INT_MAX) by (vm_compute; discriminate).
  split.
  - apply (proj1 (constructed_size 3 [true; false; true; true; false] "" 0 H3)).
    vm_compute. discriminate.
  - apply (proj1 (proj2 (constructed_size 6 [] "101" 0 H6))).
    vm_compute. discriminate.
Defined.

(** X4.  The target length does not change the number a bitset stands for:
    built from one source into lengths [N] and [M], the two bitsets convert
    to the same unsigned integer. *)
Theorem to_ulong_independent_of_N (N M : nat) (source : list bool) (s : string)
    (value : Z) :
  to_ulong (dynamic_bitset_of_vector N source)
    = to_ulong (dynamic_bitset_of_vector M source)
  /\ to_ulong (dynamic_bitset_of_initializer_list N source)
    = to_ulong (dynamic_bitset_of_vector M source)
  /\ to_ulong (dynamic_bitset_of_string N s)
    = to_ulong (dynamic_bitset_of_string M s)
  /\ to_ulong (dynamic_bitset_of_cstring N s)
    = to_ulong (dynamic_bitset_of_cstring M s)
  /\ to_ulong (dynamic_bitset_of_int N value)
    = to_ulong (dynamic_bitset_of_int M value).
Proof.
  rewrite !to_ulong_spec.
  rewrite bits_of_initializer_list, !bits_of_vector, !bits_of_string_ctor,
    !bits_of_cstring, !bits_of_int.
  rewrite !binary_value_padding_rule. repeat split.
Qed.

(** ** Reassignment and input *)

(** X5.  [operator=(const std::vector<bool> &)] pads to the length the bitset
    has at that moment, not to [N]: with sizes that fit an [int], the new
    content is the assigned sequence behind [size - length] false bits, and
    the new length is the larger of the two, so assignment never shortens a
    bitset. *)
Theorem assign_vector_pads_to_current_size {N : nat} (this : dynamic_bitset N)
    (binaries : list bool) :
  Z.of_nat (size this) <= INT_MAX -> Z.of_nat (length binaries) <= INT_MAX ->
  bits_ (assign_vector this binaries)
    = replicate (size this - length binaries) false ++ binaries
  /\ size (assign_vector this binaries) = (size this `max` length binaries)%nat.
Proof.
  intros Ht Hb. unfold size in *.
  assert (Hbits : bits_ (assign_vector this binaries)
                  = replicate (length (bits_ this) - length binaries) false
                    ++ binaries).
  { unfold assign_vector. simpl. rewrite add_padding_rule.
    apply padding_rule_exact; assumption. }
  split; [exact Hbits|].
  rewrite Hbits, length_app, length_replicate. lia.
Qed.

Lemma assign_vector_pads_to_current_size_witness :
  bits_ (assign_vector (dynamic_bitset_of_string 2 "10101") [true; true])
  = [false; false; false; true; true].
Proof.
  refine (proj1 (assign_vector_pads_to_current_size
                   (dynamic_bitset_of_string 2 "10101") [true; true] _ _));
    vm_compute; discriminate.
Defined.

(** X6.  Stream input stores the token as assignment of a vector stores the
    token's bits.  With the length of the bitset and the length of the token
    within the range of [int], the new content is the token's bits behind
    [size - length] false bits; and with the length of the bitset within that
    range, an empty token leaves a bitset of the same length with every bit
    false. *)
Theorem operator_extract_as_assignment {N : nat} (this : dynamic_bitset N)
    (str : string) :
  operator_extract this str = assign_vector this (bits_of_string str)
  /\ (Z.of_nat (size this) <= INT_MAX -> Z.of_nat (String.length str) <= INT_MAX ->
      bits_ (operator_extract this str)
      = replicate (size this - String.length str) false ++ bits_of_string str)
  /\ (Z.of_nat (size this) <= INT_MAX ->
      bits_ (operator_extract this "") = replicate (size this) false).
Proof.
  assert (Heq : operator_extract this str = assign_vector this (bits_of_string str)).
  { apply bitset_eq. unfold operator_extract, assign_vector, string_to_bitset.
    simpl. rewrite string_to_bitset_loop_spec, length_bits_of_string. reflexivity. }
  split; [exact Heq|]. split.
  - intros Ht Hs. rewrite Heq.
    rewrite (proj1 (assign_vector_pads_to_current_size this (bits_of_string str)
                      Ht ltac:(rewrite length_bits_of_string; exact Hs))).
    rewrite length_bits_of_string. reflexivity.
  - intros Ht. unfold operator_extract, string_to_bitset, size in *. simpl.
    rewrite add_padding_rule, padding_rule_exact by (simpl; unfold INT_MAX in *; lia).
    simpl. rewrite Nat.sub_0_r, app_nil_r. reflexivity.
Qed.

Lemma operator_extract_as_assignment_witness :
  bits_ (operator_extract (dynamic_bitset_default 0) "10101")
  = [true; false; true; false; true]
  /\ bits_ (operator_extract (dynamic_bitset_of_string 0 "10101") "")
     = [false; false; false; false; false].
Proof.
  split.
  - refine (proj1 (proj2 (operator_extract_as_assignment
                            (dynamic_bitset_default 0) "10101")) _ _);
      vm_compute; discriminate.
  - refine (proj2 (proj2 (operator_extract_as_assignment
                            (dynamic_bitset_of_string 0 "10101") "")) _);
      vm_compute; discriminate.
Defined.

(** ** Quantifiers, reverse, set *)

Lemma all_of_forallb (p : bool -> bool) (l : list bool) :
  all_of p l = forallb p l.
Proof. induction l as [|b l IH]; [reflexivity|]. simpl. rewrite IH. destruct (p b); reflexivity. Qed.

Lemma any_of_existsb (p : bool -> bool) (l : list bool) :
  any_of p l = existsb p l.
Proof. induction l as [|b l IH]; [reflexivity|]. simpl. rewrite IH. destruct (p b); reflexivity. Qed.

Lemma none_of_any_of (p : bool -> bool) (l : list bool) :
  none_of p l = negb (any_of p l).
Proof. induction l as [|b l IH]; [reflexivity|]. simpl. rewrite IH. destruct (p b); reflexivity. Qed.

Lemma all_of_replicate (l : list bool) :
  all_of (fun b => b) l = true <-> l = replicate (length l) true.
Proof.
  induction l as [|b l IH]; [split; reflexivity|]. simpl. destruct b.
  - rewrite IH. split; [intros <-; reflexivity | intros H; injection H; auto].
  - split; discriminate.
Qed.

Lemma none_of_replicate (l : list bool) :
  none_of (fun b => b) l = true <-> l = replicate (length l) false.
Proof.
  induction l as [|b l IH]; [split; reflexivity|]. simpl. destruct b.
  - split; discriminate.
  - rewrite IH. split; [intros <-; reflexivity | intros H; injection H; auto].
Qed.

Lemma any_of_lookup (l : list bool) :
  any_of (fun b => b) l = true <-> exists i : nat, l !! i = Some true.
Proof.
  induction l as [|b l IH]; simpl.
  - split; [discriminate | intros [i Hi]; discriminate Hi].
  - destruct b.
    + split; [intros _; exists O; reflexivity | reflexivity].
    + rewrite IH. split.
      * intros [i Hi]. exists (S i). exact Hi.
      * intros [[|i] Hi]; [discriminate Hi | exists i; exact Hi].
Qed.

(** X7.  The three quantifiers are tied as quantifiers should be: [none()]
    is the negation of [any()]; [all()] holds exactly when every bit is set,
    [any()] exactly when some position holds a set bit; on a bitset that is
    not empty [all()] implies [any()], and [all()] and [none()] never hold
    together. *)
Theorem quantifier_laws {N : nat} (d : dynamic_bitset N) :
  none d = negb (any d)
  /\ (all d = true <-> bits_ d = replicate (size d) true)
  /\ (none d = true <-> bits_ d = replicate (size d) false)
  /\ (any d = true <-> exists i : nat, bits_ d !! i = Some true)
  /\ ((0 < size d)%nat -> all d = true -> any d = true /\ none d = false).
Proof.
  unfold all, any, none, size. split; [apply none_of_any_of|].
  split; [apply all_of_replicate|]. split; [apply none_of_replicate|].
  split; [apply any_of_lookup|].
  intros Hpos Hall. rewrite none_of_any_of.
  assert (Hany : any_of (fun b => b) (bits_ d) = true).
  { apply any_of_lookup. exists O. apply all_of_replicate in Hall.
    rewrite Hall. apply lookup_replicate_2. exact Hpos. }
  rewrite Hany. split; reflexivity.
Qed.

Lemma quantifier_laws_witness :
  any (dynamic_bitset_of_int 0 3) = true /\ none (dynamic_bitset_of_int 0 3) = false.
Proof.
  apply (proj2 (proj2 (proj2 (proj2 (quantifier_laws (dynamic_bitset_of_int 0 3)))))).
  - vm_compute. lia.
  - reflexivity.
Defined.

Lemma forallb_rev (p : bool -> bool) (l : list bool) :
  forallb p (rev l) = forallb p l.
Proof.
  induction l as [|b l IH]; [reflexivity|].
  simpl. rewrite forallb_app, IH. simpl. rewrite andb_true_r. apply andb_comm.
Qed.

Lemma existsb_rev (p : bool -> bool) (l : list bool) :
  existsb p (rev l) = existsb p l.
Proof.
  induction l as [|b l IH]; [reflexivity|].
  simpl. rewrite existsb_app, IH. simpl. rewrite orb_false_r. apply orb_comm.
Qed.

Lemma lookup_rev (l : list bool) (i : nat) :
  (i < length l)%nat -> rev l !! i = l !! (length l - S i)%nat.
Proof. intros Hi. rewrite rev_alt. apply (reverse_lookup l i Hi). Qed.

(** X8.  [reverse()] keeps the length, puts at position [i] the bit that was
    at position [size - 1 - i], undoes itself when applied twice, and changes
    none of [all()], [any()], [none()]. *)
Theorem reverse_properties {N : nat} (d : dynamic_bitset N) (i : nat) :
  size (reverse d) = size d
  /\ reverse (reverse d) = d
  /\ all (reverse d) = all d
  /\ any (reverse d) = any d
  /\ none (reverse d) = none d
  /\ ((i < size d)%nat ->
      bits_ (reverse d) !! i = bits_ d !! (size d - 1 - i)%nat).
Proof.
  unfold size, all, any, none, reverse. simpl.
  split; [apply length_rev|].
  split; [apply bitset_eq; simpl; apply rev_involutive|].
  split; [rewrite !all_of_forallb; apply forallb_rev|].
  split; [rewrite !any_of_existsb; apply existsb_rev|].
  split; [rewrite !none_of_any_of, !any_of_existsb, existsb_rev; reflexivity|].
  intros Hi. rewrite lookup_rev by exact Hi. f_equal. lia.
Qed.

Lemma reverse_properties_witness :
  bits_ (reverse (dynamic_bitset_of_int 5 11)) !! 0%nat
  = bits_ (dynamic_bitset_of_int 5 11) !! 4%nat.
Proof.
  apply (proj2 (proj2 (proj2 (proj2 (proj2
           (reverse_properties (dynamic_bitset_of_int 5 11) 0)))))).
  vm_compute. lia.
Defined.

(** ** The unsigned value against the other observers *)

Lemma binary_value_zero (l : list bool) :
  binary_value l = 0 <-> l = replicate (length l) false.
Proof.
  split.
  - induction l as [|b l IH]; [reflexivity|]. cbn [binary_value length replicate].
    pose proof (binary_value_range l) as [H0 _].
    assert (0 < 2 ^ Z.of_nat (length l)) by (apply Z.pow_pos_nonneg; lia).
    destruct b; simpl Z.b2z; intros Hv; [lia|].
    f_equal. apply IH. lia.
  - intros ->. apply binary_value_replicate_false.
Qed.

Lemma wrap_binary_value (l : list bool) :
  Z.of_nat (length l) <= 64 -> wrap (binary_value l) = binary_value l.
Proof.
  intros Hlen. apply wrap_small.
  pose proof (binary_value_range l) as [H0 Hlt]. split; [exact H0|].
  eapply Z.lt_le_trans; [exact Hlt|].
  unfold SIZE_MOD, SIZE_BITS. apply Z.pow_le_mono_r; lia.
Qed.

(** X9.  On a bitset of at most 64 bits the unsigned value agrees with the
    quantifiers: it is below [2^size]; it is 0 exactly when [none()] holds,
    so it is not 0 exactly when [any()] holds; and it is [2^size - 1] exactly
    when [all()] holds. *)
Theorem to_ulong_and_quantifiers {N : nat} (d : dynamic_bitset N) :
  Z.of_nat (size d) <= 64 ->
  0 <= to_ulong d < 2 ^ Z.of_nat (size d)
  /\ (to_ulong d = 0 <-> none d = true)
  /\ (to_ulong d <> 0 <-> any d = true)
  /\ (to_ulong d = 2 ^ Z.of_nat (size d) - 1 <-> all d = true).
Proof.
  unfold size. intros Hsize.
  rewrite to_ulong_spec, wrap_binary_value by exact Hsize.
  assert (Hnone : binary_value (bits_ d) = 0 <-> none d = true).
  { unfold none. rewrite none_of_replicate. apply binary_value_zero. }
  split; [apply binary_value_range|]. split; [exact Hnone|]. split.
  - rewrite Hnone. unfold none, any. rewrite none_of_any_of.
    destruct (any_of (fun b => b) (bits_ d)); simpl; split; congruence.
  - unfold all. rewrite all_of_replicate. split.
    + generalize (bits_ d). clear. intros l.
      induction l as [|b l IH]; [reflexivity|]. cbn [binary_value length replicate].
      pose proof (binary_value_range l) as [H0 Hlt].
      rewrite Nat2Z.inj_succ, Z.pow_succ_r by lia.
      destruct b; simpl Z.b2z; intros Hv; [|lia].
      f_equal. apply IH. lia.
    + intros ->. rewrite length_replicate. apply binary_value_replicate_true.
Qed.

Lemma to_ulong_and_quantifiers_witness :
  (to_ulong (dynamic_bitset_of_int 0 3) = 2 ^ Z.of_nat (size (dynamic_bitset_of_int 0 3)) - 1
   <-> all (dynamic_bitset_of_int 0 3) = true).
Proof.
  assert (Hsize : Z.of_nat (size (dynamic_bitset_of_int 0 3)) <= 64)
    by (vm_compute; discriminate).
  exact (proj2 (proj2 (proj2
           (to_ulong_and_quantifiers (dynamic_bitset_of_int 0 3) Hsize)))).
Defined.

(** X10.  [set(value)] keeps the length and leaves every bit equal to
    [value].  After [reset()] the bitset satisfies [none()] and converts to
    0; after [set(true)] it satisfies [all()] and, with at most 64 bits,
    converts to [2^size - 1]. *)
Theorem set_properties {N : nat} (d : dynamic_bitset N) (value : bool) :
  size (set d value) = size d
  /\ bits_ (set d value) = replicate (size d) value
  /\ none (reset d) = true
  /\ to_ulong (reset d) = 0
  /\ all (set d true) = true
  /\ (Z.of_nat (size d) <= 64 ->
      to_ulong (set d true) = 2 ^ Z.of_nat (size d) - 1).
Proof.
  unfold size, reset, set, none, all. simpl.
  split; [apply length_replicate|]. split; [reflexivity|].
  split; [apply none_of_replicate; rewrite length_replicate; reflexivity|].
  split; [rewrite to_ulong_spec; simpl; rewrite binary_value_replicate_false;
          reflexivity|].
  split; [apply all_of_replicate; rewrite length_replicate; reflexivity|].
  intros Hsize. rewrite to_ulong_spec. simpl.
  rewrite wrap_binary_value by (rewrite length_replicate; exact Hsize).
  apply binary_value_replicate_true.
Qed.

Lemma set_properties_witness :
  to_ulong (set (dynamic_bitset_of_cstring 6 "10101") true) = 63.
Proof.
  apply (proj2 (proj2 (proj2 (proj2 (proj2
           (set_properties (dynamic_bitset_of_cstring 6 "10101") true)))))).
  vm_compute. discriminate.
Defined.

(** ** The string form *)

Lemma binary_string_of_bits (bits : list bool) :
  binary_string (string_of_bits bits) = true.
Proof. induction bits as [|[] bits IH]; simpl; [reflexivity | exact IH | exact IH]. Qed.

(** X11.  [to_string()] writes one character per bit, each '0' or '1', and
    tells bitsets apart: two bitsets with the same string are equal.  The
    string constructor of a class with [N] no larger than the length reads
    the same bits back. *)
Theorem to_string_properties {N : nat} (a b : dynamic_bitset N) :
  String.length (to_string a) = size a
  /\ binary_string (to_string a) = true
  /\ bits_of_string (to_string a) = bits_ a
  /\ (to_string a = to_string b -> a = b)
  /\ ((N <= size a)%nat -> Z.of_nat (size a) <= INT_MAX ->
      dynamic_bitset_of_string N (to_string a) = a).
Proof.
  unfold size. rewrite !to_string_spec.
  split; [apply length_string_of_bits|].
  split; [apply binary_string_of_bits|].
  split; [apply bits_of_string_of_bits|].
  split.
  - intros Heq. apply bitset_eq.
    rewrite <- (bits_of_string_of_bits (bits_ a)), Heq.
    apply bits_of_string_of_bits.
  - intros HN Hmax. apply bitset_eq.
    rewrite bits_of_string_ctor, length_string_of_bits, bits_of_string_of_bits.
    apply padding_rule_nonpos.
    rewrite padding_count_exact by (unfold INT_MAX in *; lia). lia.
Qed.

Lemma to_string_properties_witness :
  dynamic_bitset_of_string 3 (to_string (dynamic_bitset_of_int 3 10))
  = dynamic_bitset_of_int 3 10.
Proof.
  refine (proj2 (proj2 (proj2 (proj2
            (to_string_properties (dynamic_bitset_of_int 3 10)
               (dynamic_bitset_of_int 3 10))))) _ _).
  - vm_compute. lia.
  - vm_compute. discriminate.
Defined.

(** ** Writing and reading an element *)

(** X12.  After [x[index] = value] at a position of the vector, reading
    [index] gives [value], reading any other index gives what it gave before
    (a bit, or the same out-of-range failure), and the length is unchanged. *)
Theorem write_then_read {N : nat} (d : dynamic_bitset N) (index other : Z)
    (value : bool) :
  in_range d index ->
  fst (index_assign d index value) = Ok tt
  /\ operator_index_const (snd (index_assign d index value)) index = Ok value
  /\ (other <> index ->
      operator_index_const (snd (index_assign d index value)) other
      = operator_index_const d other)
  /\ size (snd (index_assign d index value)) = size d.
Proof.
  unfold in_range, size. intros Hin.
  unfold index_assign, operator_index.
  rewrite (proj2 (in_bounds_true (bits_ d) index) Hin). simpl.
  unfold operator_index_const, vec_at, in_bounds. simpl.
  rewrite length_insert.
  split; [reflexivity|]. split; [|split].
  - destruct (Z.leb_spec 0 index), (Z.ltb_spec index (Z.of_nat (length (bits_ d))));
      try lia. simpl. f_equal.
    apply nth_lookup_Some, list_lookup_insert_eq. lia.
  - intros Hne.
    destruct (Z.leb_spec 0 other), (Z.ltb_spec other (Z.of_nat (length (bits_ d))));
      simpl; try reflexivity. f_equal.
    rewrite !nth_lookup, list_lookup_insert_ne by lia. reflexivity.
  - reflexivity.
Qed.

Lemma write_then_read_witness :
  operator_index_const (snd (index_assign (dynamic_bitset_of_int 0 11) 2 false)) 2
  = Ok false.
Proof.
  assert (Hin : in_range (dynamic_bitset_of_int 0 11) 2)
    by (vm_compute; split; [discriminate | reflexivity]).
  exact (proj1 (proj2 (write_then_read (dynamic_bitset_of_int 0 11) 2 0 false Hin))).
Defined.

(** ** Bitwise operators, further *)

(** X13.  The order of the operands of the non-assigning AND, OR and XOR
    does not matter, whatever the two lengths; and when the shorter length is
    within the range of [int] they do not fail. *)
Theorem bitwise_operators_commute {N : nat} (a b : dynamic_bitset N) :
  operator_and a b = operator_and b a
  /\ operator_or a b = operator_or b a
  /\ operator_xor a b = operator_xor b a
  /\ (Z.of_nat (size a `min` size b) <= INT_MAX ->
      is_Ok (operator_and a b) = true
      /\ is_Ok (operator_or a b) = true
      /\ is_Ok (operator_xor a b) = true).
Proof.
  assert (Hcomm : forall op, (forall x y, op x y = op y x) ->
            bitwise_new op a b = bitwise_new op b a).
  { intros op Hop.
    destruct (Z.le_gt_cases (Z.of_nat (size a `min` size b)) INT_MAX) as [Hle|Hgt].
    - rewrite !bitwise_new_spec by lia.
      rewrite (zip_with_comm op (bits_ b) (bits_ a) Hop). reflexivity.
    - rewrite !bitwise_new_overflow by lia.
      reflexivity. }
  unfold operator_and, operator_or, operator_xor.
  split; [apply Hcomm, andb_comm|]. split; [apply Hcomm, orb_comm|].
  split; [apply Hcomm, xorb_comm|].
  intros Hle. rewrite !bitwise_new_spec by exact Hle. repeat split.
Qed.

Lemma bitwise_operators_commute_witness :
  is_Ok (operator_and (dynamic_bitset_of_cstring 0 "010010")
           (dynamic_bitset_of_cstring 0 "10101")) = true.
Proof.
  refine (proj1 (proj2 (proj2 (proj2
            (bitwise_operators_commute (dynamic_bitset_of_cstring 0 "010010")
               (dynamic_bitset_of_cstring 0 "10101")))) _)).
  vm_compute. discriminate.
Defined.

(** X14.  A compound assignment and the operator it abbreviates, on operands
    of at least [N] bits: the bitset left by [a &= b] is the bitset returned
    by [a & b] followed by the bits of [a] from the shorter length on; when
    [a] is not the longer operand the two are equal.  The same holds for OR
    and XOR, whose bodies differ only by the boolean operator. *)
Theorem compound_assignment_extends_operator {N : nat}
    (op : bool -> bool -> bool) (a b : dynamic_bitset N) :
  (forall x y, op x y = op y x) ->
  (N <= size a)%nat -> (N <= size b)%nat ->
  Z.of_nat (size a `min` size b) <= INT_MAX ->
  exists r a' : dynamic_bitset N,
    bitwise_new op a b = Ok r
    /\ bitwise_assign op a b = Ok a'
    /\ bits_ a' = bits_ r ++ drop (size a `min` size b) (bits_ a)
    /\ ((size a <= size b)%nat -> a' = r).
Proof.
  intros Hop Ha Hb Hmax.
  rewrite bitwise_new_spec, bitwise_assign_spec by exact Hmax. unfold size in *.
  rewrite bits_of_vector_long by (rewrite length_zip_with; lia).
  do 2 eexists. split; [reflexivity|]. split; [reflexivity|]. simpl.
  rewrite (zip_with_comm op (bits_ b) (bits_ a) Hop).
  split; [reflexivity|].
  intros Hle. apply bitset_eq. simpl. unfold size.
  rewrite drop_ge, app_nil_r by lia. reflexivity.
Qed.

Lemma compound_assignment_extends_operator_witness :
  exists r a' : dynamic_bitset 0,
    operator_and (dynamic_bitset_of_cstring 0 "111111") (dynamic_bitset_of_cstring 0 "010")
    = Ok r
    /\ operator_and_assign (dynamic_bitset_of_cstring 0 "111111")
         (dynamic_bitset_of_cstring 0 "010") = Ok a'
    /\ bits_ a' = bits_ r ++ [true; true; true].
Proof.
  destruct (compound_assignment_extends_operator andb
              (dynamic_bitset_of_cstring 0 "111111")
              (dynamic_bitset_of_cstring 0 "010") andb_comm)
    as (r & a' & Hr & Ha' & Hbits & _).
  - vm_compute. lia.
  - vm_compute. lia.
  - vm_compute. discriminate.
  - exists r, a'. split; [exact Hr|]. split; [exact Ha'|]. exact Hbits.
Defined.

Lemma bitwise_assign_self_loop (op : bool -> bool -> bool) (t : list bool) (n : nat) :
  (n <= length t)%nat ->
  for_up n 0
    (fun i bits => b ← vec_read bits i; x ← vec_read bits i; vec_write bits i (op b x))
    t
  = Ok (map (fun b => op b b) (take n t) ++ drop n t).
Proof.
  induction n as [|n IH]; intros Ht; [reflexivity|].
  rewrite for_up_snoc, IH by lia. rewrite bind_Ok, Z.add_0_l.
  destruct (lookup_lt_is_Some_2 t n) as [y Hy]; [lia|].
  assert (Hm : length (map (fun b => op b b) (take n t)) = n)
    by (rewrite length_map, length_take; lia).
  assert (Hy' : (map (fun b => op b b) (take n t) ++ drop n t) !! n = Some y).
  { rewrite lookup_app_r, Hm, Nat.sub_diag, lookup_drop, Nat.add_0_r by lia.
    exact Hy. }
  rewrite (vec_read_lookup _ _ _ Hy'), !bind_Ok.
  rewrite vec_write_lt by (rewrite length_app, Hm, length_drop; lia).
  f_equal.
  rewrite insert_app_r_alt, Hm, Nat.sub_diag by lia.
  rewrite (drop_S _ _ _ Hy). simpl.
  rewrite (take_S_r _ _ _ Hy), map_app, <- app_assoc. reflexivity.
Qed.

Lemma zip_with_diag (op : bool -> bool -> bool) (l : list bool) :
  zip_with op l l = map (fun b => op b b) l.
Proof. induction l as [|b l IH]; [reflexivity|]. simpl. rewrite IH. reflexivity. Qed.

(** X15.  A compound assignment of a bitset with itself, where the right
    operand is the very vector being written, gives what it gives on a
    separate copy.  With a length within the range of [int], [a &= a] and
    [a |= a] leave [a] as it is, and [a ^= a] leaves every bit false at the
    same length. *)
Theorem compound_assignment_with_itself {N : nat} (op : bool -> bool -> bool)
    (a : dynamic_bitset N) :
  bitwise_assign_self op a = bitwise_assign op a a
  /\ (Z.of_nat (size a) <= INT_MAX ->
      bitwise_assign_self andb a = Ok a
      /\ bitwise_assign_self orb a = Ok a
      /\ bitwise_assign_self xorb a = Ok (reset a)).
Proof.
  assert (Hself : forall f, Z.of_nat (size a) <= INT_MAX ->
            bitwise_assign_self f a
            = Ok (mk_bitset (map (fun b => f b b) (bits_ a)))).
  { intros f Hmax. unfold bitwise_assign_self, size in *.
    rewrite for_int_in_range by (rewrite Nat.min_id; exact Hmax).
    rewrite bitwise_assign_self_loop by lia.
    rewrite bind_Ok, Nat.min_id, take_ge, drop_ge, app_nil_r by lia.
    reflexivity. }
  split.
  - destruct (Z.le_gt_cases (Z.of_nat (size a)) INT_MAX) as [Hle|Hgt].
    + rewrite Hself by exact Hle.
      rewrite bitwise_assign_spec by (rewrite Nat.min_id; exact Hle).
      unfold size.
      rewrite Nat.min_id, drop_ge, app_nil_r, zip_with_diag by lia. reflexivity.
    + rewrite bitwise_assign_overflow by (rewrite Nat.min_id; exact Hgt).
      unfold bitwise_assign_self.
      rewrite for_int_overflow; [reflexivity | fold (size a); rewrite Nat.min_id; exact Hgt |].
      intros m Hm. rewrite bitwise_assign_self_loop by lia. reflexivity.
  - intros Hmax. rewrite !Hself by exact Hmax. split; [|split].
    + f_equal. apply bitset_eq. simpl.
      rewrite <- (map_id (bits_ a)) at 2. apply map_ext. intros []; reflexivity.
    + f_equal. apply bitset_eq. simpl.
      rewrite <- (map_id (bits_ a)) at 2. apply map_ext. intros []; reflexivity.
    + f_equal. apply bitset_eq. simpl. clear Hself Hmax.
      induction (bits_ a) as [|[] l IH]; simpl; [reflexivity | |]; f_equal; exact IH.
Qed.

Lemma compound_assignment_with_itself_witness :
  bitwise_assign_self xorb (dynamic_bitset_of_cstring 0 "10101")
  = Ok (reset (dynamic_bitset_of_cstring 0 "10101")).
Proof.
  refine (proj2 (proj2 (proj2
            (compound_assignment_with_itself xorb
               (dynamic_bitset_of_cstring 0 "10101")) _))).
  vm_compute. discriminate.
Defined.

(** ** Bitwise operators and the unsigned value *)

Lemma le_value_zip_with (op : bool -> bool -> bool) (zop : Z -> Z -> Z)
    (l k : list bool) :
  (forall x y n, Z.testbit (zop x y) n = op (Z.testbit x n) (Z.testbit y n)) ->
  op false false = false ->
  length l = length k ->
  le_value (zip_with op l k) = zop (le_value l) (le_value k).
Proof.
  intros Hspec Hff. revert k.
  induction l as [|a l IH]; intros [|b k] Hlen; try discriminate Hlen.
  - simpl. apply Z.bits_inj'. intros n _. rewrite Hspec, !Z.bits_0, Hff.
    reflexivity.
  - cbn [zip_with le_value]. injection Hlen as Hlen. rewrite (IH k Hlen).
    apply Z.bits_inj'. intros n Hn. rewrite Hspec.
    rewrite !(Z.add_comm (Z.b2z _)).
    destruct (Z.eq_dec n 0) as [->|Hpos].
    + rewrite !Z.testbit_0_r. reflexivity.
    + replace n with (Z.succ (n - 1)) by lia.
      rewrite !Z.testbit_succ_r by lia. rewrite Hspec. reflexivity.
Qed.

Lemma rev_zip_with (op : bool -> bool -> bool) (l k : list bool) :
  length l = length k ->
  rev (zip_with op l k) = zip_with op (rev l) (rev k).
Proof.
  revert k. induction l as [|a l IH]; intros [|b k] Hlen; try discriminate Hlen;
    [reflexivity|].
  injection Hlen as Hlen. simpl.
  rewrite zip_with_app by (rewrite !length_rev; exact Hlen).
  rewrite IH by exact Hlen. reflexivity.
Qed.

Lemma binary_value_zip_with (op : bool -> bool -> bool) (zop : Z -> Z -> Z)
    (l k : list bool) :
  (forall x y n, Z.testbit (zop x y) n = op (Z.testbit x n) (Z.testbit y n)) ->
  op false false = false ->
  length l = length k ->
  binary_value (zip_with op l k) = zop (binary_value l) (binary_value k).
Proof.
  intros Hspec Hff Hlen.
  rewrite <- !le_value_rev, rev_zip_with by exact Hlen.
  apply le_value_zip_with; [exact Hspec | exact Hff |].
  rewrite !length_rev. exact Hlen.
Qed.

(** X16.  On two bitsets of one length, at least [N] and at most 64 bits, the
    bitwise operators are the bitwise operations of the unsigned values: the
    results of [a & b], [a | b] and [a ^ b] convert to the AND, OR and XOR of
    [to_ulong a] and [to_ulong b]. *)
Theorem bitwise_operators_on_values {N : nat} (a b : dynamic_bitset N) :
  size a = size b -> (N <= size a)%nat -> Z.of_nat (size a) <= 64 ->
  exists r_and r_or r_xor : dynamic_bitset N,
    operator_and a b = Ok r_and
    /\ operator_or a b = Ok r_or
    /\ operator_xor a b = Ok r_xor
    /\ to_ulong r_and = Z.land (to_ulong a) (to_ulong b)
    /\ to_ulong r_or = Z.lor (to_ulong a) (to_ulong b)
    /\ to_ulong r_xor = Z.lxor (to_ulong a) (to_ulong b).
Proof.
  unfold size. intros Hlen HN Hsize.
  assert (Hnew : forall op, (forall x y, op x y = op y x) ->
            bitwise_new op a b = Ok (mk_bitset (zip_with op (bits_ a) (bits_ b)))).
  { intros op Hop.
    rewrite bitwise_new_spec by (unfold size, INT_MAX; lia).
    rewrite (zip_with_comm op _ _ Hop).
    rewrite bits_of_vector_long; [reflexivity | |];
      rewrite length_zip_with; unfold INT_MAX; lia. }
  assert (Hval : forall op zop,
            (forall x y n, Z.testbit (zop x y) n
                           = op (Z.testbit x n) (Z.testbit y n)) ->
            op false false = false ->
            to_ulong (@mk_bitset N (zip_with op (bits_ a) (bits_ b)))
            = zop (to_ulong a) (to_ulong b)).
  { intros op zop Hspec Hff. rewrite !to_ulong_spec. simpl.
    rewrite !wrap_binary_value by (rewrite ?length_zip_with; lia).
    apply binary_value_zip_with; assumption. }
  exists (mk_bitset (zip_with andb (bits_ a) (bits_ b))),
         (mk_bitset (zip_with orb (bits_ a) (bits_ b))),
         (mk_bitset (zip_with xorb (bits_ a) (bits_ b))).
  split; [apply (Hnew andb andb_comm)|].
  split; [apply (Hnew orb orb_comm)|].
  split; [apply (Hnew xorb xorb_comm)|].
  split; [apply (Hval andb Z.land Z.land_spec eq_refl)|].
  split; [apply (Hval orb Z.lor Z.lor_spec eq_refl)|].
  apply (Hval xorb Z.lxor Z.lxor_spec eq_refl).
Qed.

Lemma bitwise_operators_on_values_witness :
  exists r_and r_or r_xor : dynamic_bitset 5,
    operator_and (dynamic_bitset_of_cstring 5 "10001") (dynamic_bitset_of_cstring 5 "10101")
    = Ok r_and
    /\ operator_or (dynamic_bitset_of_cstring 5 "10001") (dynamic_bitset_of_cstring 5 "10101")
       = Ok r_or
    /\ operator_xor (dynamic_bitset_of_cstring 5 "10001") (dynamic_bitset_of_cstring 5 "10101")
       = Ok r_xor
    /\ to_ulong r_and = Z.land 17 21
    /\ to_ulong r_or = Z.lor 17 21
    /\ to_ulong r_xor = Z.lxor 17 21.
Proof.
  apply (bitwise_operators_on_values
           (dynamic_bitset_of_cstring 5 "10001") (dynamic_bitset_of_cstring 5 "10101")).
  - reflexivity.
  - vm_compute. lia.
  - vm_compute. discriminate.
Defined.

(** ** Shifts, further *)

Lemma binary_value_take (bits : list bool) (k : nat) :
  (k <= length bits)%nat ->
  binary_value (take (length bits - k) bits) = binary_value bits / 2 ^ Z.of_nat k.
Proof.
  intros Hk.
  pose proof (binary_value_app (take (length bits - k) bits)
                (drop (length bits - k) bits)) as Happ.
  rewrite take_drop, length_drop in Happ.
  pose proof (binary_value_range (drop (length bits - k) bits)) as Hr.
  rewrite length_drop in Hr.
  replace (length bits - (length bits - k))%nat with k in * by lia.
  apply Z.div_unique_pos with (r := binary_value (drop (length bits - k) bits));
    lia.
Qed.

(** X17.  For [0 < k < size] on a bitset of at most 64 bits, and with fuel
    for the passes of its loop, the right shift returns a bitset of the same
    length whose unsigned value is the former value divided by [2^k]. *)
Theorem right_shift_divides {N : nat} (d : dynamic_bitset N) (k fuel : nat) :
  (0 < k < size d)%nat -> Z.of_nat (size d) <= 64 -> (size d - k < fuel)%nat ->
  exists r : dynamic_bitset N,
    operator_shr_assign fuel d (Z.of_nat k) = Ok r
    /\ size r = size d
    /\ to_ulong r = to_ulong d / 2 ^ Z.of_nat k.
Proof.
  intros Hk Hsize Hfuel.
  rewrite operator_shr_assign_positive
    by (try assumption; unfold SIZE_MOD, SIZE_BITS; lia).
  eexists. split; [reflexivity|]. unfold size in *. simpl. split.
  - rewrite length_app, length_replicate, length_take. lia.
  - rewrite !to_ulong_spec. simpl.
    rewrite !wrap_binary_value
      by (rewrite ?length_app, ?length_replicate, ?length_take; lia).
    rewrite binary_value_app, binary_value_replicate_false, Z.mul_0_l, Z.add_0_l.
    apply binary_value_take. lia.
Qed.

Lemma right_shift_divides_witness :
  exists r : dynamic_bitset 0,
    operator_shr_assign 4 (dynamic_bitset_of_string 0 "10101") 2 = Ok r
    /\ size r = 5%nat
    /\ to_ulong r = 21 / 2 ^ 2.
Proof.
  apply (right_shift_divides (dynamic_bitset_of_string 0 "10101") 2 4).
  - vm_compute. lia.
  - vm_compute. discriminate.
  - vm_compute. lia.
Defined.

(** X18.  Right shifts add up: for [j] and [k] both positive and below the
    length, shifting right by [j] and then by [k] gives what one shift by
    [j + k] gives, also when [j + k] reaches the length and everything is
    shifted out. *)
Theorem right_shifts_compose {N : nat} (d : dynamic_bitset N) (j k fuel : nat) :
  (0 < j < size d)%nat -> (0 < k < size d)%nat ->
  Z.of_nat (size d) <= SIZE_MOD -> (size d < fuel)%nat ->
  (d' ← operator_shr_assign fuel d (Z.of_nat j);
   operator_shr_assign fuel d' (Z.of_nat k))
  = operator_shr_assign fuel d (Z.of_nat j + Z.of_nat k).
Proof.
  intros Hj Hk Hmod Hfuel.
  rewrite (operator_shr_assign_positive d j) by (try assumption; lia).
  rewrite bind_Ok.
  assert (Hsize : size (@mk_bitset N (replicate j false ++ take (size d - j) (bits_ d)))
                  = size d).
  { unfold size in *. simpl. rewrite length_app, length_replicate, length_take. lia. }
  rewrite operator_shr_assign_positive by (rewrite Hsize; try assumption; lia).
  rewrite Hsize. simpl.
  rewrite take_app, take_replicate, length_replicate, take_take.
  rewrite <- Nat2Z.inj_add.
  destruct (Nat.lt_ge_cases (j + k) (size d)) as [Hlt|Hge].
  - rewrite operator_shr_assign_positive by (try assumption; lia).
    do 2 f_equal. rewrite app_assoc, <- replicate_add. f_equal.
    + f_equal. lia.
    + f_equal. lia.
  - unfold operator_shr_assign. fold (size d).
    destruct (Z.leb_spec (Z.of_nat (size d)) (Z.of_nat (j + k))) as [_|H]; [|lia].
    do 2 f_equal. unfold vec_assign.
    replace (size d - k - j)%nat with O by lia. rewrite take_0, app_nil_r.
    rewrite <- replicate_add. f_equal. lia.
Qed.

Lemma right_shifts_compose_witness :
  (d' ← operator_shr_assign 6 (dynamic_bitset_of_string 0 "10101") 1;
   operator_shr_assign 6 d' 2)
  = operator_shr_assign 6 (dynamic_bitset_of_string 0 "10101") 3.
Proof.
  apply (right_shifts_compose (dynamic_bitset_of_string 0 "10101") 1 2 6).
  - vm_compute. lia.
  - vm_compute. lia.
  - vm_compute. discriminate.
  - vm_compute. lia.
Defined.

(** X19.  The left shift by 0 is defined and changes nothing: no pass of its
    copy loop reads outside the vector. *)
Theorem left_shift_by_zero {N : nat} (d : dynamic_bitset N) :
  Z.of_nat (size d) < SIZE_MOD ->
  operator_shl_assign d 0 = Ok d.
Proof.
  unfold size. intros Hmod.
  unfold operator_shl_assign, operator_shl_assign_with.
  destruct (Z.leb_spec (Z.of_nat (length (bits_ d))) 0) as [Hle|Hgt].
  - f_equal. apply bitset_eq. simpl.
    destruct (bits_ d); [reflexivity | simpl in Hle; lia].
  - rewrite for_range_0.
    rewrite (shl_copy_inside _ 0 (length (bits_ d))) by lia.
    rewrite bind_Ok, drop_0, firstn_all, drop_all, app_nil_r.
    unfold for_range. rewrite Z.sub_0_r, wrap_small by lia.
    rewrite Z.sub_diag. simpl. f_equal. apply bitset_eq. reflexivity.
Qed.

Lemma left_shift_by_zero_witness :
  operator_shl_assign (dynamic_bitset_of_string 0 "10101") 0
  = Ok (dynamic_bitset_of_string 0 "10101").
Proof.
  apply left_shift_by_zero. vm_compute. reflexivity.
Defined.

(** X20.  On an implementation where a read outside the storage yields some
    bit and goes on, the left shift by [k < size] of a bitset of at most 64
    bits keeps the length and multiplies the unsigned value by [2^k] modulo
    [2^size], whatever the stray reads returned. *)
Theorem left_shift_multiplies {N : nat} (junk : Z -> bool) (d : dynamic_bitset N)
    (k : nat) :
  (k < size d)%nat -> Z.of_nat (size d) <= 64 ->
  exists r : dynamic_bitset N,
    operator_shl_assign_lenient junk d (Z.of_nat k) = Ok r
    /\ size r = size d
    /\ to_ulong r = (to_ulong d * 2 ^ Z.of_nat k) mod 2 ^ Z.of_nat (size d).
Proof.
  intros Hk Hsize.
  rewrite operator_shl_assign_lenient_spec
    by (try assumption; unfold SIZE_MOD, SIZE_BITS; lia).
  eexists. split; [reflexivity|]. unfold size in *. simpl. split.
  - rewrite length_app, length_replicate, length_drop. lia.
  - rewrite !to_ulong_spec. simpl.
    rewrite !wrap_binary_value
      by (rewrite ?length_app, ?length_replicate, ?length_drop; lia).
    rewrite binary_value_app, binary_value_replicate_false, length_replicate, Z.add_0_r.
    pose proof (binary_value_app (take k (bits_ d)) (drop k (bits_ d))) as Happ.
    rewrite take_drop, length_drop in Happ.
    pose proof (binary_value_range (drop k (bits_ d))) as Hr.
    rewrite length_drop in Hr.
    pose proof (binary_value_range (take k (bits_ d))) as Ht.
    assert (Hpow : 2 ^ Z.of_nat (length (bits_ d))
                   = 2 ^ Z.of_nat (length (bits_ d) - k) * 2 ^ Z.of_nat k).
    { rewrite <- Z.pow_add_r by lia. f_equal. lia. }
    assert (0 < 2 ^ Z.of_nat k) by (apply Z.pow_pos_nonneg; lia).
    apply Z.mod_unique_pos with (q := binary_value (take k (bits_ d))).
    + rewrite Hpow. nia.
    + rewrite Happ, Hpow. ring.
Qed.

Lemma left_shift_multiplies_witness :
  exists r : dynamic_bitset 0,
    operator_shl_assign_lenient (fun _ => true) (dynamic_bitset_of_string 0 "10101") 2
    = Ok r
    /\ size r = 5%nat
    /\ to_ulong r = (21 * 2 ^ 2) mod 2 ^ 5.
Proof.
  apply (left_shift_multiplies (fun _ => true) (dynamic_bitset_of_string 0 "10101") 2).
  - vm_compute. lia.
  - vm_compute. discriminate.
Defined.

(** ** Constructors, further *)

Lemma c_chars_no_nul (s : string) :
  strlen s = String.length s -> c_chars s = s.
Proof.
  induction s as [|c s IH]; [reflexivity|]. simpl.
  destruct (Ascii.eqb c Ascii.zero); [discriminate|].
  intros Hlen. injection Hlen as Hlen. rewrite (IH Hlen). reflexivity.
Qed.

Lemma c_chars_stops (s1 s2 : string) :
  c_chars (String.append s1 (String Ascii.zero s2)) = c_chars s1.
Proof.
  induction s1 as [|c s1 IH]; [reflexivity|].
  rewrite append_cons. simpl. destruct (Ascii.eqb c Ascii.zero); [reflexivity|].
  rewrite IH. reflexivity.
Qed.

(** X21.  The constructor from a C string builds what the constructor from a
    [std::string] builds from the characters before the first NUL: the two
    agree on a text without NUL, and everything from a NUL on is ignored. *)
Theorem cstring_constructor_as_string (N : nat) (s s' : string) :
  dynamic_bitset_of_cstring N s = dynamic_bitset_of_string N (c_chars s)
  /\ (strlen s = String.length s ->
      dynamic_bitset_of_cstring N s = dynamic_bitset_of_string N s)
  /\ dynamic_bitset_of_cstring N (String.append s (String Ascii.zero s'))
     = dynamic_bitset_of_cstring N s.
Proof.
  assert (Heq : forall t, dynamic_bitset_of_cstring N t
                          = dynamic_bitset_of_string N (c_chars t)).
  { intros t. apply bitset_eq. rewrite bits_of_cstring, bits_of_string_ctor.
    reflexivity. }
  split; [apply Heq|]. split.
  - intros Hlen. rewrite Heq, (c_chars_no_nul s Hlen). reflexivity.
  - rewrite !Heq, c_chars_stops. reflexivity.
Qed.

Lemma cstring_constructor_as_string_witness :
  dynamic_bitset_of_cstring 6 "10101" = dynamic_bitset_of_string 6 "10101".
Proof.
  apply (proj1 (proj2 (cstring_constructor_as_string 6 "10101" ""))).
  reflexivity.
Defined.

(** X22.  With sizes that fit an [int], the bitset a non-assigning operator
    returns is the position-wise combination over the shorter length behind
    [N - min] false bits; its length is [max N (min (size a) (size b))], so
    never below [N], whatever the lengths of the operands. *)
Theorem bitwise_result_is_padded {N : nat} (op : bool -> bool -> bool)
    (a b : dynamic_bitset N) :
  Z.of_nat N <= INT_MAX -> Z.of_nat (size a `min` size b) <= INT_MAX ->
  exists r : dynamic_bitset N,
    bitwise_new op a b = Ok r
    /\ bits_ r = replicate (N - size a `min` size b) false
                 ++ zip_with op (bits_ b) (bits_ a)
    /\ size r = (N `max` (size a `min` size b))%nat.
Proof.
  intros HN Hmin. rewrite bitwise_new_spec by exact Hmin.
  eexists. split; [reflexivity|].
  unfold size in *.
  assert (Hz : length (zip_with op (bits_ b) (bits_ a))
               = (length (bits_ a) `min` length (bits_ b))%nat)
    by (rewrite length_zip_with; lia).
  rewrite bits_of_vector, padding_rule_exact by (rewrite ?Hz; assumption).
  rewrite Hz. split; [reflexivity|].
  rewrite length_app, length_replicate, Hz. lia.
Qed.

Lemma bitwise_result_is_padded_witness :
  exists r : dynamic_bitset 5,
    operator_and (dynamic_bitset_of_string 5 "101010") (dynamic_bitset_of_string 5 "1100110")
    = Ok r
    /\ bits_ r = replicate 0 false ++ [true; false; false; false; true; false]
    /\ size r = 6%nat.
Proof.
  apply (bitwise_result_is_padded andb
           (dynamic_bitset_of_string 5 "101010") (dynamic_bitset_of_string 5 "1100110"));
    vm_compute; discriminate.
Defined.
